(** * alex: option builders and validated configuration constructors

    A shallow embedding of the Go package [alex] (redis.go, redis_config.go,
    file_bucket_config.go, the Minio option builder and the Minio and
    file-bucket constructors) together with the generic [builderutil.Build]
    helper it imports.

    Conventions of the embedding:
    - a Go pointer [*T] is [ptr T := option T]; [nil] is [None];
    - a Go [error] is [option error_value]; [errors.New msg] is
      [Some (mk_error msg)];
    - a Go [string] is a [string] (a sequence of bytes), a Go [int] is a [Z]
      (the code only stores and compares it with [0], no arithmetic);
    - a Go function body is a computation in [Exec R], the monad of
      early return: a statement either falls through to the next one, or
      returns from the enclosing function, or panics.  The computation also
      carries a ghost log of the mutator invocations and of the validation
      rules that were evaluated, so that "no further mutator runs" and
      "later rules are not evaluated" are statements about the code. *)

From Stdlib Require Import String List ZArith Bool Lia.
Import ListNotations.

Open Scope string_scope.
Open Scope list_scope.
Open Scope Z_scope.

(** ** Go values *)

Definition ptr (A : Type) : Type := option A.

Record error_value : Type := mk_error { Error : string }.

Definition error : Type := option error_value.

(** [errors.New(msg)] *)
Definition errors_New (msg : string) : error := Some (mk_error msg).

(** [new(T)]: every Go type has a zero value. *)
Class Zero (T : Type) : Type := zero : T.

#[global] Instance Zero_string : Zero string := "".
#[global] Instance Zero_int : Zero Z := 0.
#[global] Instance Zero_bool : Zero bool := false.

(** [p != nil] on pointers and interfaces. *)
Definition not_nil {A : Type} (p : option A) : bool :=
  match p with Some _ => true | None => false end.

Definition is_nil {A : Type} (p : option A) : bool := negb (not_nil p).

(** ** Control flow with a ghost log *)

(** The validation rules of the three constructors, in source order. *)
Inductive Rule : Type :=
| RedisOptionsNotNil
| RedisAddrRequired
| RedisDBRange
| MinioEndpointRequired
| MinioAccessKeyRequired
| MinioSecretKeyRequired
| MinioBucketNameRequired
| FileBucketBasePathRequired.

(** Ghost events: mutator [j] of lister [i] was invoked; rule [r] was
    evaluated. *)
Inductive Event : Type :=
| Invoke (i j : nat)
| Evaluate (r : Rule).

Inductive flow (R A : Type) : Type :=
| Next (a : A)       (* fall through to the next statement *)
| Ret (r : R)        (* [return r] *)
| Panic.             (* run-time panic (nil dereference) *)

Arguments Next {R A} a.
Arguments Ret {R A} r.
Arguments Panic {R A}.

Definition Exec (R A : Type) : Type := (list Event * flow R A)%type.

Definition pure {R A : Type} (a : A) : Exec R A := ([], Next a).

Definition Return {R A : Type} (r : R) : Exec R A := ([], Ret r).

Definition bind {R A B : Type} (m : Exec R A) (k : A -> Exec R B) : Exec R B :=
  match m with
  | (l, Next a) => let (l', f) := k a in (l ++ l', f)
  | (l, Ret r) => (l, Ret r)
  | (l, Panic) => (l, Panic)
  end.

Declare Scope exec_scope.
Delimit Scope exec_scope with exec.
Bind Scope exec_scope with Exec.

Notation "x <- m ;; k" := (bind m (fun x => k))
  (at level 61, m at next level, right associativity) : exec_scope.
Notation "' p <- m ;; k" := (bind m (fun x => let p := x in k))
  (at level 61, p pattern, m at next level, right associativity) : exec_scope.
Notation "m ;; k" := (bind m (fun _ => k))
  (at level 61, right associativity) : exec_scope.

Open Scope exec_scope.

(** [if c { return r }] *)
Definition when {R : Type} (c : bool) (r : R) : Exec R unit :=
  if c then Return r else pure tt.

Definition emit {R : Type} (e : Event) : Exec R unit := ([e], Next tt).

(** A validation rule [if c { return r }], recorded in the ghost log. *)
Definition rule {R : Type} (id : Rule) (c : bool) (r : R) : Exec R unit :=
  emit (Evaluate id) ;; when c r.

(** [*p]: dereferencing [nil] panics. *)
Definition deref {R A : Type} (p : ptr A) : Exec R A :=
  match p with
  | Some a => pure a
  | None => ([], Panic)
  end.

(** What a call of a function yields to its caller. *)
Inductive outcome (R : Type) : Type :=
| Returned (r : R)
| Panicked.

Arguments Returned {R} r.
Arguments Panicked {R}.

(** A function body never falls off its end: its fall-through type is
    empty. *)
Definition body (R : Type) : Type := Exec R Empty_set.

Definition trace {R : Type} (f : body R) : list Event := fst f.

Definition result {R : Type} (f : body R) : outcome R :=
  match snd f with
  | Next a => match a with end
  | Ret r => Returned r
  | Panic => Panicked
  end.

(** [x := f(...)] inside another function. *)
Definition call {R R' : Type} (f : body R) : Exec R' R :=
  match result f with
  | Returned r => (trace f, Next r)
  | Panicked => (trace f, Panic)
  end.

(** ** builderutil *)

Module builderutil.

(** [func( *T) error]: the function may update the pointee and reports an
    optional error. *)
Definition Mutator (T : Type) : Type := T -> T * error.

(** [type Lister[T any] interface { List() []func( *T) error }] *)
Class Lister (T B : Type) : Type := List : B -> list (Mutator T).

(** An interface value: a concrete value packed with its method table. *)
Inductive lister (T : Type) : Type :=
| as_lister {B : Type} `{Lister T B} (b : B).

Arguments as_lister {T B _} b.

Definition mutators {T : Type} (l : lister T) : list (Mutator T) :=
  match l with
  | @as_lister _ _ impl b => @List _ _ impl b
  end.

Section Build.
Context {T : Type} `{Zero T}.

Definition BuildResult : Type := (ptr T * error)%type.

(** Modelled from the spec: the inner loop of [Build], which is not part of
    the sources: "for each mutator in its sequence ... invoke the mutator
    against the Options instance; if any invocation signals an error, stop
    immediately and propagate that error".  Walks the mutators of lister
    [i] from position [j] on. *)
Fixpoint apply_from (i j : nat) (ms : list (Mutator T)) (args : T)
  : Exec BuildResult T :=
  match ms with
  | [] => pure args
  | setArg :: rest =>
      emit (Invoke i j) ;;
      let '(args', err) := setArg args in
      when (not_nil err) (None, err) ;;
      apply_from i (S j) rest args'
  end.

(** Modelled from the spec: the outer loop of [Build], which is not part of
    the sources: "for each supplied object ... (outer order preserved, then
    inner order preserved)".  Walks the listers from position [i] on. *)
Fixpoint apply_listers (i : nat) (opts : list (lister T)) (args : T)
  : Exec BuildResult T :=
  match opts with
  | [] => pure args
  | l :: rest =>
      args' <- apply_from i 0 (mutators l) args ;;
      apply_listers (S i) rest args'
  end.

(** Modelled from the spec: [builderutil.Build] belongs to the imported
    module github.com/zeroxsolutions/strike and is not part of the
    sources; this follows section 4.2: start from a zero-valued Options
    instance, invoke every mutator of every supplied object in the order
    given, stop at the first mutator that signals an error and propagate
    that error (no Options value is handed out), otherwise return the
    resulting Options value. *)
Definition Build (opts : list (lister T)) : body BuildResult :=
  args <- apply_listers 0 opts zero ;;
  Return (Some args, None).

End Build.

End builderutil.

Import builderutil.

(** ** Builders

    A builder is a pointer to a struct holding the slice [Opts]; a setter
    appends to that slice and returns the same pointer.  The embedding passes
    the builder's state through each setter: [SetAddr a b] is the state of
    [b] after [b.SetAddr(a)].  Builders are created by their [New...]
    function and never copied by value, so no two builders share a slice.

    Method chaining: [b |> SetAddr a |> SetDB n] is [b.SetAddr(a).SetDB(n)]. *)
Notation "b |> f" := (f b) (at level 45, left associativity, only parsing).

(** ** redis_config.go *)

Module RedisConfigOptions.
Record t : Type := mk { Addr : string; Password : string; DB : Z }.
End RedisConfigOptions.

#[global] Instance Zero_RedisConfigOptions : Zero RedisConfigOptions.t :=
  {| RedisConfigOptions.Addr := zero;
     RedisConfigOptions.Password := zero;
     RedisConfigOptions.DB := zero |}.

Module RedisConfigOptionsBuilder.
Import RedisConfigOptions.

Record t : Type := mk { Opts : list (Mutator RedisConfigOptions.t) }.

Definition SetAddr (addr : string) (b : t) : t :=
  {| Opts := Opts b ++ [fun o =>
       ({| Addr := addr; Password := Password o; DB := DB o |}, None)] |}.

Definition SetPassword (password : string) (b : t) : t :=
  {| Opts := Opts b ++ [fun o =>
       ({| Addr := Addr o; Password := password; DB := DB o |}, None)] |}.

Definition SetDB (db : Z) (b : t) : t :=
  {| Opts := Opts b ++ [fun o =>
       ({| Addr := Addr o; Password := Password o; DB := db |}, None)] |}.

Definition List (b : t) : list (Mutator RedisConfigOptions.t) := Opts b.

End RedisConfigOptionsBuilder.

#[global] Instance Lister_RedisConfigOptionsBuilder
  : Lister RedisConfigOptions.t RedisConfigOptionsBuilder.t :=
  RedisConfigOptionsBuilder.List.

Definition NewRedisConfigOptionsBuilder : RedisConfigOptionsBuilder.t :=
  {| RedisConfigOptionsBuilder.Opts := [] |}.

Module RedisConfig.
Record t : Type := mk { Addr : string; Password : string; DB : Z }.
End RedisConfig.

(** ** redis.go *)

Definition NewRedisConfig (opts : list (lister RedisConfigOptions.t))
  : body (ptr RedisConfig.t * error) :=
  '(options, err) <- call (Build opts) ;;
  when (not_nil err) (None, err) ;;
  rule RedisOptionsNotNil (is_nil options)
    (None, errors_New "redis config options is nil") ;;
  options <- deref options ;;
  rule RedisAddrRequired (String.eqb (RedisConfigOptions.Addr options) "")
    (None, errors_New "redis address is required") ;;
  rule RedisDBRange (RedisConfigOptions.DB options <? 0)
    (None, errors_New "redis database must be greater than 0") ;;
  Return (Some {| RedisConfig.Addr := RedisConfigOptions.Addr options;
                  RedisConfig.Password := RedisConfigOptions.Password options;
                  RedisConfig.DB := RedisConfigOptions.DB options |},
          None).

(** ** The Minio option builder *)

Module MinioOption.
Record t : Type := mk {
  Endpoint : string;
  AccessKey : string;
  SecretKey : string;
  UseSSL : bool;
  BucketName : string;
  Region : string
}.
End MinioOption.

#[global] Instance Zero_MinioOption : Zero MinioOption.t :=
  {| MinioOption.Endpoint := zero;
     MinioOption.AccessKey := zero;
     MinioOption.SecretKey := zero;
     MinioOption.UseSSL := zero;
     MinioOption.BucketName := zero;
     MinioOption.Region := zero |}.

Module MinioOptionBuilder.
Import MinioOption.

Record t : Type := mk { Opts : list (Mutator MinioOption.t) }.

Definition List (b : t) : list (Mutator MinioOption.t) := Opts b.

Definition SetEndpoint (endpoint : string) (b : t) : t :=
  {| Opts := Opts b ++ [fun args =>
       ({| Endpoint := endpoint; AccessKey := AccessKey args;
           SecretKey := SecretKey args; UseSSL := UseSSL args;
           BucketName := BucketName args; Region := Region args |}, None)] |}.

Definition SetAccessKey (accessKey : string) (b : t) : t :=
  {| Opts := Opts b ++ [fun args =>
       ({| Endpoint := Endpoint args; AccessKey := accessKey;
           SecretKey := SecretKey args; UseSSL := UseSSL args;
           BucketName := BucketName args; Region := Region args |}, None)] |}.

Definition SetSecretKey (secretKey : string) (b : t) : t :=
  {| Opts := Opts b ++ [fun args =>
       ({| Endpoint := Endpoint args; AccessKey := AccessKey args;
           SecretKey := secretKey; UseSSL := UseSSL args;
           BucketName := BucketName args; Region := Region args |}, None)] |}.

Definition SetUseSSL (useSSL : bool) (b : t) : t :=
  {| Opts := Opts b ++ [fun args =>
       ({| Endpoint := Endpoint args; AccessKey := AccessKey args;
           SecretKey := SecretKey args; UseSSL := useSSL;
           BucketName := BucketName args; Region := Region args |}, None)] |}.

Definition SetBucketName (bucketName : string) (b : t) : t :=
  {| Opts := Opts b ++ [fun args =>
       ({| Endpoint := Endpoint args; AccessKey := AccessKey args;
           SecretKey := SecretKey args; UseSSL := UseSSL args;
           BucketName := bucketName; Region := Region args |}, None)] |}.

Definition SetRegion (region : string) (b : t) : t :=
  {| Opts := Opts b ++ [fun args =>
       ({| Endpoint := Endpoint args; AccessKey := AccessKey args;
           SecretKey := SecretKey args; UseSSL := UseSSL args;
           BucketName := BucketName args; Region := region |}, None)] |}.

End MinioOptionBuilder.

#[global] Instance Lister_MinioOptionBuilder
  : Lister MinioOption.t MinioOptionBuilder.t :=
  MinioOptionBuilder.List.

Definition NewMinioOption : MinioOptionBuilder.t :=
  {| MinioOptionBuilder.Opts := [] |}.

Module MinioConfig.
Record t : Type := mk {
  Endpoint : string;
  AccessKey : string;
  SecretKey : string;
  UseSSL : bool;
  BucketName : string;
  Region : string
}.
End MinioConfig.

(** ** The Minio constructor *)

Definition NewMinioConfig (opts : list (lister MinioOption.t))
  : body (ptr MinioConfig.t * error) :=
  '(options, err) <- call (Build opts) ;;
  when (not_nil err) (None, err) ;;
  options <- deref options ;;
  rule MinioEndpointRequired (String.eqb (MinioOption.Endpoint options) "")
    (None, errors_New "minio endpoint is required") ;;
  rule MinioAccessKeyRequired (String.eqb (MinioOption.AccessKey options) "")
    (None, errors_New "minio access key is required") ;;
  rule MinioSecretKeyRequired (String.eqb (MinioOption.SecretKey options) "")
    (None, errors_New "minio secret key is required") ;;
  rule MinioBucketNameRequired (String.eqb (MinioOption.BucketName options) "")
    (None, errors_New "minio bucket name is required") ;;
  Return (Some {| MinioConfig.Endpoint := MinioOption.Endpoint options;
                  MinioConfig.AccessKey := MinioOption.AccessKey options;
                  MinioConfig.SecretKey := MinioOption.SecretKey options;
                  MinioConfig.UseSSL := MinioOption.UseSSL options;
                  MinioConfig.BucketName := MinioOption.BucketName options;
                  MinioConfig.Region := MinioOption.Region options |},
          None).

(** ** file_bucket_config.go *)

Module FileBucketOption.
Record t : Type := mk { BasePath : string }.
End FileBucketOption.

#[global] Instance Zero_FileBucketOption : Zero FileBucketOption.t :=
  {| FileBucketOption.BasePath := zero |}.

Module FileBucketOptionBuilder.
Import FileBucketOption.

Record t : Type := mk { Opts : list (Mutator FileBucketOption.t) }.

Definition SetBasePath (basePath : string) (b : t) : t :=
  {| Opts := Opts b ++ [fun args => ({| BasePath := basePath |}, None)] |}.

Definition List (b : t) : list (Mutator FileBucketOption.t) := Opts b.

End FileBucketOptionBuilder.

#[global] Instance Lister_FileBucketOptionBuilder
  : Lister FileBucketOption.t FileBucketOptionBuilder.t :=
  FileBucketOptionBuilder.List.

Definition NewFileBucketOption : FileBucketOptionBuilder.t :=
  {| FileBucketOptionBuilder.Opts := [] |}.

Module FileBucketConfig.
Record t : Type := mk { BasePath : string }.
End FileBucketConfig.

(** ** The file-bucket constructor *)

Definition NewFileBucketConfig (opts : list (lister FileBucketOption.t))
  : body (ptr FileBucketConfig.t * error) :=
  '(options, err) <- call (Build opts) ;;
  when (not_nil err) (None, err) ;;
  options <- deref options ;;
  rule FileBucketBasePathRequired
    (String.eqb (FileBucketOption.BasePath options) "")
    (None, errors_New "file bucket base path is required") ;;
  Return (Some {| FileBucketConfig.BasePath :=
                    FileBucketOption.BasePath options |},
          None).

(** ** Vocabulary of the statements *)

Section Runs.
Context {T : Type} `{Zero T}.

(** The mutator sequence [Build] walks: all mutators of the first lister
    in order, then all of the second, and so on. *)
Definition flatten (opts : list (lister T)) : list (Mutator T) :=
  concat (map mutators opts).

(** The invocation events of all mutators, in that same order. *)
Fixpoint positions_from (i : nat) (opts : list (lister T)) : list Event :=
  match opts with
  | [] => []
  | l :: rest =>
      map (Invoke i) (seq 0 (length (mutators l)))
        ++ positions_from (S i) rest
  end.

Definition positions (opts : list (lister T)) : list Event :=
  positions_from 0 opts.

(** [all_succeed ms a a']: run one after the other from [a], the mutators
    [ms] all report no error and leave [a']. *)
Inductive all_succeed : list (Mutator T) -> T -> T -> Prop :=
| succeed_nil (a : T) : all_succeed [] a a
| succeed_cons (m : Mutator T) (ms : list (Mutator T)) (a a1 a' : T) :
    m a = (a1, None) ->
    all_succeed ms a1 a' ->
    all_succeed (m :: ms) a a'.

(** Mutator number [k] (counting from 0 along [flatten opts]) is reached
    and signals the error [e]. *)
Definition signals_error (opts : list (lister T)) (k : nat) (e : error_value)
  : Prop :=
  exists pre m post s s',
    flatten opts = pre ++ m :: post /\
    length pre = k /\
    all_succeed pre zero s /\
    m s = (s', Some e).

(** A loop-free account of a run of [ms] from [args]: how many mutators
    were invoked, the state reached, and the error of the last one. *)
Fixpoint run (ms : list (Mutator T)) (args : T) : nat * T * error :=
  match ms with
  | [] => (0%nat, args, None)
  | m :: rest =>
      let '(args', err) := m args in
      match err with
      | Some e => (1%nat, args', Some e)
      | None => let '(n, a, e) := run rest args' in (S n, a, e)
      end
  end.

(** The state after mutators that cannot fail. *)
Definition assign_all (ms : list (Mutator T)) (args : T) : T :=
  fold_left (fun a m => fst (m a)) ms args.

Definition never_fails (m : Mutator T) : Prop :=
  forall a, snd (m a) = None.

(** How the loops of [Build] leave off after [run]. *)
Definition flow_of (a : T) (e : error) : flow (ptr T * error) T :=
  match e with
  | None => Next a
  | Some _ => Ret (None, e)
  end.

End Runs.

(** A caller-defined lister: a bare slice of mutators,
    [type Funcs[T any] []func( *T) error] with [List()] returning it. *)
Definition Funcs (T : Type) : Type := list (Mutator T).

#[global] Instance Lister_Funcs (T : Type) : Lister T (Funcs T) :=
  fun fs => fs.

(** *** Sequences of setter calls *)

Definition or_else {V : Type} (o : option V) (d : V) : V :=
  match o with
  | Some v => v
  | None => d
  end.

(** The argument of the last call in [cs] that [sel] selects, and [d] when
    there is none. *)
Definition last_value {C V : Type} (sel : C -> option V) (d : V) (cs : list C)
  : V :=
  fold_left (fun acc c => or_else (sel c) acc) cs d.

Inductive RedisSetterCall : Type :=
| RedisSetAddr (addr : string)
| RedisSetPassword (password : string)
| RedisSetDB (db : Z).

Definition redis_call (c : RedisSetterCall)
  : RedisConfigOptionsBuilder.t -> RedisConfigOptionsBuilder.t :=
  match c with
  | RedisSetAddr addr => RedisConfigOptionsBuilder.SetAddr addr
  | RedisSetPassword password => RedisConfigOptionsBuilder.SetPassword password
  | RedisSetDB db => RedisConfigOptionsBuilder.SetDB db
  end.

(** [NewRedisConfigOptionsBuilder()] followed by the calls [cs], chained. *)
Definition redis_builder (cs : list RedisSetterCall)
  : RedisConfigOptionsBuilder.t :=
  fold_left (fun b c => redis_call c b) cs NewRedisConfigOptionsBuilder.

Definition addr_arg (c : RedisSetterCall) : option string :=
  match c with RedisSetAddr v => Some v | _ => None end.
Definition password_arg (c : RedisSetterCall) : option string :=
  match c with RedisSetPassword v => Some v | _ => None end.
Definition db_arg (c : RedisSetterCall) : option Z :=
  match c with RedisSetDB v => Some v | _ => None end.

Inductive MinioSetterCall : Type :=
| MinioSetEndpoint (endpoint : string)
| MinioSetAccessKey (accessKey : string)
| MinioSetSecretKey (secretKey : string)
| MinioSetUseSSL (useSSL : bool)
| MinioSetBucketName (bucketName : string)
| MinioSetRegion (region : string).

Definition minio_call (c : MinioSetterCall)
  : MinioOptionBuilder.t -> MinioOptionBuilder.t :=
  match c with
  | MinioSetEndpoint endpoint => MinioOptionBuilder.SetEndpoint endpoint
  | MinioSetAccessKey accessKey => MinioOptionBuilder.SetAccessKey accessKey
  | MinioSetSecretKey secretKey => MinioOptionBuilder.SetSecretKey secretKey
  | MinioSetUseSSL useSSL => MinioOptionBuilder.SetUseSSL useSSL
  | MinioSetBucketName bucketName => MinioOptionBuilder.SetBucketName bucketName
  | MinioSetRegion region => MinioOptionBuilder.SetRegion region
  end.

(** [NewMinioOption()] followed by the calls [cs], chained. *)
Definition minio_builder (cs : list MinioSetterCall) : MinioOptionBuilder.t :=
  fold_left (fun b c => minio_call c b) cs NewMinioOption.

Definition endpoint_arg (c : MinioSetterCall) : option string :=
  match c with MinioSetEndpoint v => Some v | _ => None end.
Definition accessKey_arg (c : MinioSetterCall) : option string :=
  match c with MinioSetAccessKey v => Some v | _ => None end.
Definition secretKey_arg (c : MinioSetterCall) : option string :=
  match c with MinioSetSecretKey v => Some v | _ => None end.
Definition useSSL_arg (c : MinioSetterCall) : option bool :=
  match c with MinioSetUseSSL v => Some v | _ => None end.
Definition bucketName_arg (c : MinioSetterCall) : option string :=
  match c with MinioSetBucketName v => Some v | _ => None end.
Definition region_arg (c : MinioSetterCall) : option string :=
  match c with MinioSetRegion v => Some v | _ => None end.

Inductive FileBucketSetterCall : Type :=
| FileBucketSetBasePath (basePath : string).

Definition file_bucket_call (c : FileBucketSetterCall)
  : FileBucketOptionBuilder.t -> FileBucketOptionBuilder.t :=
  match c with
  | FileBucketSetBasePath basePath => FileBucketOptionBuilder.SetBasePath basePath
  end.

(** [NewFileBucketOption()] followed by the calls [cs], chained. *)
Definition file_bucket_builder (cs : list FileBucketSetterCall)
  : FileBucketOptionBuilder.t :=
  fold_left (fun b c => file_bucket_call c b) cs NewFileBucketOption.

Definition basePath_arg (c : FileBucketSetterCall) : option string :=
  match c with FileBucketSetBasePath v => Some v end.

(** The mutators one setter call appends. *)
Definition redis_appended (c : RedisSetterCall)
  : list (Mutator RedisConfigOptions.t) :=
  RedisConfigOptionsBuilder.Opts (redis_call c NewRedisConfigOptionsBuilder).

Definition minio_appended (c : MinioSetterCall) : list (Mutator MinioOption.t) :=
  MinioOptionBuilder.Opts (minio_call c NewMinioOption).

Definition file_bucket_appended (c : FileBucketSetterCall)
  : list (Mutator FileBucketOption.t) :=
  FileBucketOptionBuilder.Opts (file_bucket_call c NewFileBucketOption).

(** The options in which every field holds the argument of the last call
    that set it, and its zero value when no call did. *)
Definition redis_options_of (cs : list RedisSetterCall) : RedisConfigOptions.t :=
  {| RedisConfigOptions.Addr := last_value addr_arg zero cs;
     RedisConfigOptions.Password := last_value password_arg zero cs;
     RedisConfigOptions.DB := last_value db_arg zero cs |}.

Definition minio_options_of (cs : list MinioSetterCall) : MinioOption.t :=
  {| MinioOption.Endpoint := last_value endpoint_arg zero cs;
     MinioOption.AccessKey := last_value accessKey_arg zero cs;
     MinioOption.SecretKey := last_value secretKey_arg zero cs;
     MinioOption.UseSSL := last_value useSSL_arg zero cs;
     MinioOption.BucketName := last_value bucketName_arg zero cs;
     MinioOption.Region := last_value region_arg zero cs |}.

Definition file_bucket_options_of (cs : list FileBucketSetterCall)
  : FileBucketOption.t :=
  {| FileBucketOption.BasePath := last_value basePath_arg zero cs |}.

(** *** Validation checklists, as the specification words them

    A checklist is an ordered list of rules; each rule has a condition under
    which the options violate it and the message of its error.  The first
    violated rule decides, and the rules behind it are not looked at. *)

Definition Checklist (O : Type) : Type := list (Rule * (O -> bool) * string).

(** The rules looked at, in order, and the message of the first violated
    one. *)
Fixpoint first_violated {O : Type} (rules : Checklist O) (o : O)
  : list Rule * option string :=
  match rules with
  | [] => ([], None)
  | (id, violated, msg) :: rest =>
      if violated o then ([id], Some msg)
      else let (ids, e) := first_violated rest o in (id :: ids, e)
  end.

(** What a constructor returns according to its checklist. *)
Definition checked {O Cfg : Type} (rules : Checklist O) (config_of : O -> ptr Cfg)
           (o : O) : list Event * outcome (ptr Cfg * error) :=
  (map Evaluate (fst (first_violated rules o)),
   match snd (first_violated rules o) with
   | Some msg => Returned (None, errors_New msg)
   | None => Returned (config_of o, None)
   end).

(** Redis: nil check, then address, then database range.  The checklist
    looks at the pointer [Build] returned. *)
Definition redis_checklist : Checklist (ptr RedisConfigOptions.t) :=
  [ (RedisOptionsNotNil, is_nil, "redis config options is nil");
    (RedisAddrRequired,
     fun p => match p with
              | Some o => String.eqb (RedisConfigOptions.Addr o) ""
              | None => false
              end,
     "redis address is required");
    (RedisDBRange,
     fun p => match p with
              | Some o => RedisConfigOptions.DB o <? 0
              | None => false
              end,
     "redis database must be greater than 0") ].

Definition redis_config_of (p : ptr RedisConfigOptions.t) : ptr RedisConfig.t :=
  match p with
  | Some o => Some {| RedisConfig.Addr := RedisConfigOptions.Addr o;
                      RedisConfig.Password := RedisConfigOptions.Password o;
                      RedisConfig.DB := RedisConfigOptions.DB o |}
  | None => None
  end.

(** Minio: endpoint, then access key, then secret key, then bucket name. *)
Definition minio_checklist : Checklist MinioOption.t :=
  [ (MinioEndpointRequired,
     fun o => String.eqb (MinioOption.Endpoint o) "",
     "minio endpoint is required");
    (MinioAccessKeyRequired,
     fun o => String.eqb (MinioOption.AccessKey o) "",
     "minio access key is required");
    (MinioSecretKeyRequired,
     fun o => String.eqb (MinioOption.SecretKey o) "",
     "minio secret key is required");
    (MinioBucketNameRequired,
     fun o => String.eqb (MinioOption.BucketName o) "",
     "minio bucket name is required") ].

Definition minio_config_of (o : MinioOption.t) : ptr MinioConfig.t :=
  Some {| MinioConfig.Endpoint := MinioOption.Endpoint o;
          MinioConfig.AccessKey := MinioOption.AccessKey o;
          MinioConfig.SecretKey := MinioOption.SecretKey o;
          MinioConfig.UseSSL := MinioOption.UseSSL o;
          MinioConfig.BucketName := MinioOption.BucketName o;
          MinioConfig.Region := MinioOption.Region o |}.

(** File bucket: base path. *)
Definition file_bucket_checklist : Checklist FileBucketOption.t :=
  [ (FileBucketBasePathRequired,
     fun o => String.eqb (FileBucketOption.BasePath o) "",
     "file bucket base path is required") ].

Definition file_bucket_config_of (o : FileBucketOption.t)
  : ptr FileBucketConfig.t :=
  Some {| FileBucketConfig.BasePath := FileBucketOption.BasePath o |}.

(** *** Sample inputs *)

(** A Redis setter chain followed by a caller-defined lister whose first
    mutator writes the address and then fails, and whose second would
    succeed. *)
Definition failing_redis_opts : list (lister RedisConfigOptions.t) :=
  [ as_lister (NewRedisConfigOptionsBuilder
               |> RedisConfigOptionsBuilder.SetAddr "localhost:6379");
    as_lister ([ (fun o => ({| RedisConfigOptions.Addr := "half-written";
                               RedisConfigOptions.Password :=
                                 RedisConfigOptions.Password o;
                               RedisConfigOptions.DB :=
                                 RedisConfigOptions.DB o |},
                            errors_New "boom"));
                 (fun o => (o, None)) ] : Funcs RedisConfigOptions.t) ].

Definition failing_minio_opts : list (lister MinioOption.t) :=
  [ as_lister ([ (fun o => (o, errors_New "boom"));
                 (fun o => (o, None)) ] : Funcs MinioOption.t);
    as_lister (NewMinioOption |> MinioOptionBuilder.SetEndpoint "https://x") ].

Definition failing_file_bucket_opts : list (lister FileBucketOption.t) :=
  [ as_lister (NewFileBucketOption
               |> FileBucketOptionBuilder.SetBasePath "/data");
    as_lister ([ (fun o => (o, errors_New "boom")) ] : Funcs FileBucketOption.t) ].

Definition redis_example_opts : list (lister RedisConfigOptions.t) :=
  [ as_lister (NewRedisConfigOptionsBuilder
               |> RedisConfigOptionsBuilder.SetAddr "localhost:6379"
               |> RedisConfigOptionsBuilder.SetDB 0) ].

Definition minio_example_calls : list MinioSetterCall :=
  [ MinioSetEndpoint "https://x"; MinioSetAccessKey "a";
    MinioSetSecretKey "b"; MinioSetBucketName "bkt" ].

Definition minio_example_opts : list (lister MinioOption.t) :=
  [ as_lister (NewMinioOption
               |> MinioOptionBuilder.SetEndpoint "https://x"
               |> MinioOptionBuilder.SetAccessKey "a"
               |> MinioOptionBuilder.SetSecretKey "b"
               |> MinioOptionBuilder.SetBucketName "bkt") ].

Definition minio_example_config : MinioConfig.t :=
  {| MinioConfig.Endpoint := "https://x";
     MinioConfig.AccessKey := "a";
     MinioConfig.SecretKey := "b";
     MinioConfig.UseSSL := false;
     MinioConfig.BucketName := "bkt";
     MinioConfig.Region := "" |}.

(** All fields valid except the access key, which is never set. *)
Definition minio_no_access_key_opts : list (lister MinioOption.t) :=
  [ as_lister (NewMinioOption
               |> MinioOptionBuilder.SetEndpoint "https://x"
               |> MinioOptionBuilder.SetSecretKey "b"
               |> MinioOptionBuilder.SetBucketName "bkt") ].

Definition file_bucket_example_opts : list (lister FileBucketOption.t) :=
  [ as_lister (NewFileBucketOption
               |> FileBucketOptionBuilder.SetBasePath "/data") ].

(** [NewRedisConfigOptionsBuilder().SetAddr(addr).SetDB(db)] *)
Definition redis_addr_db (addr : string) (db : Z)
  : list (lister RedisConfigOptions.t) :=
  [ as_lister (NewRedisConfigOptionsBuilder
               |> RedisConfigOptionsBuilder.SetAddr addr
               |> RedisConfigOptionsBuilder.SetDB db) ].

(** [NewFileBucketOption().SetBasePath(basePath)] *)
Definition file_bucket_base_path (basePath : string)
  : list (lister FileBucketOption.t) :=
  [ as_lister (NewFileBucketOption
               |> FileBucketOptionBuilder.SetBasePath basePath) ].

(** The error messages of the three checklists. *)
Definition redis_messages : list string :=
  [ "redis config options is nil"; "redis address is required";
    "redis database must be greater than 0" ].

Definition minio_messages : list string :=
  [ "minio endpoint is required"; "minio access key is required";
    "minio secret key is required"; "minio bucket name is required" ].

Definition file_bucket_messages : list string :=
  [ "file bucket base path is required" ].

(** Minio options with the access key and the bucket name both missing. *)
Definition minio_two_missing : MinioOption.t :=
  {| MinioOption.Endpoint := "https://x"; MinioOption.AccessKey := "";
     MinioOption.SecretKey := "b"; MinioOption.UseSSL := false;
     MinioOption.BucketName := ""; MinioOption.Region := "" |}.

(** *** Further vocabulary: chains on any builder, fields, merged listers *)

(** The calls [cs] chained on a builder [b] that may already hold mutators
    (the field [Opts] is exported, so a caller may have filled it). *)
Definition redis_chain (cs : list RedisSetterCall)
           (b : RedisConfigOptionsBuilder.t) : RedisConfigOptionsBuilder.t :=
  fold_left (fun b c => redis_call c b) cs b.

Definition minio_chain (cs : list MinioSetterCall) (b : MinioOptionBuilder.t)
  : MinioOptionBuilder.t :=
  fold_left (fun b c => minio_call c b) cs b.

Definition file_bucket_chain (cs : list FileBucketSetterCall)
           (b : FileBucketOptionBuilder.t) : FileBucketOptionBuilder.t :=
  fold_left (fun b c => file_bucket_call c b) cs b.

(** The field a setter call assigns. *)
Inductive RedisField : Type := FieldAddr | FieldPassword | FieldDB.

Definition redis_field (c : RedisSetterCall) : RedisField :=
  match c with
  | RedisSetAddr _ => FieldAddr
  | RedisSetPassword _ => FieldPassword
  | RedisSetDB _ => FieldDB
  end.

Inductive MinioField : Type :=
| FieldEndpoint | FieldAccessKey | FieldSecretKey
| FieldUseSSL | FieldBucketName | FieldRegion.

Definition minio_field (c : MinioSetterCall) : MinioField :=
  match c with
  | MinioSetEndpoint _ => FieldEndpoint
  | MinioSetAccessKey _ => FieldAccessKey
  | MinioSetSecretKey _ => FieldSecretKey
  | MinioSetUseSSL _ => FieldUseSSL
  | MinioSetBucketName _ => FieldBucketName
  | MinioSetRegion _ => FieldRegion
  end.

(** One caller-defined lister holding the mutators of all of [opts], in
    order. *)
Definition merged {T : Type} (opts : list (lister T)) : list (lister T) :=
  [ as_lister (flatten opts : Funcs T) ].

(** Builders passed side by side: as many builders as call lists. *)
Definition redis_builders (css : list (list RedisSetterCall))
  : list (lister RedisConfigOptions.t) :=
  map (fun cs => as_lister (redis_builder cs)) css.

Definition minio_builders (css : list (list MinioSetterCall))
  : list (lister MinioOption.t) :=
  map (fun cs => as_lister (minio_builder cs)) css.

Definition file_bucket_builders (css : list (list FileBucketSetterCall))
  : list (lister FileBucketOption.t) :=
  map (fun cs => as_lister (file_bucket_builder cs)) css.

(** * Facts about the control-flow monad *)

Lemma bind_next {R A B : Type} (l : list Event) (a : A) (k : A -> Exec R B) :
  bind (l, Next a) k = ((l ++ fst (k a))%list, snd (k a)).
Proof. simpl. destruct (k a); reflexivity. Qed.

Lemma bind_ret {R A B : Type} (l : list Event) (r : R) (k : A -> Exec R B) :
  bind (l, Ret r) k = (l, Ret r).
Proof. reflexivity. Qed.

Lemma call_returned {R R' : Type} (f : body R) (r : R) :
  result f = Returned r -> @call R R' f = (trace f, Next r).
Proof. unfold call. intros ->. reflexivity. Qed.

Lemma call_panicked {R R' : Type} (f : body R) :
  result f = Panicked -> @call R R' f = (trace f, Panic).
Proof. unfold call. intros ->. reflexivity. Qed.

Lemma firstn_seq_le (n j m : nat) :
  (n <= m)%nat -> firstn n (seq j m) = seq j n.
Proof.
  revert j m. induction n as [|n IH]; intros j [|m] Hle; simpl;
    try reflexivity; try lia.
  f_equal. apply IH. lia.
Qed.

(** * Facts about Build *)

Section BuildFacts.
Context {T : Type} `{Zero T}.

Lemma run_le (ms : list (Mutator T)) (a : T) :
  (fst (fst (run ms a)) <= length ms)%nat.
Proof.
  revert a. induction ms as [|m ms IH]; intros a; simpl; [lia|].
  destruct (m a) as [a1 [e|]]; simpl; [lia|].
  specialize (IH a1). destruct (run ms a1) as [[n a'] e']. simpl in *. lia.
Qed.

Lemma run_ok_length (ms : list (Mutator T)) (a a' : T) (n : nat) :
  run ms a = (n, a', None) -> n = length ms.
Proof.
  revert a n. induction ms as [|m ms IH]; intros a n; simpl.
  - intros [= <- _]. reflexivity.
  - destruct (m a) as [a1 [e|]]; [discriminate|].
    destruct (run ms a1) as [[k a2] [e|]] eqn:E; intros Heq;
      inversion Heq; subst.
    f_equal. eapply IH; eauto.
Qed.

Lemma run_app (ms1 ms2 : list (Mutator T)) (a : T) :
  run (ms1 ++ ms2) a =
  match run ms1 a with
  | (n, a1, None) => let '(n', a2, e) := run ms2 a1 in ((n + n')%nat, a2, e)
  | r => r
  end.
Proof.
  revert a. induction ms1 as [|m ms IH]; intros a; simpl.
  - destruct (run ms2 a) as [[n a'] e]. reflexivity.
  - destruct (m a) as [a1 [e|]]; [reflexivity|].
    rewrite IH. destruct (run ms a1) as [[n a2] [e|]]; [reflexivity|].
    destruct (run ms2 a2) as [[n' a3] e']. reflexivity.
Qed.

Lemma run_all_succeed (ms : list (Mutator T)) (a a' : T) :
  all_succeed ms a a' -> run ms a = (length ms, a', None).
Proof.
  induction 1 as [|m ms a a1 a' Hm _ IH]; simpl; [reflexivity|].
  rewrite Hm, IH. reflexivity.
Qed.

Lemma run_first_error (pre post : list (Mutator T)) (m : Mutator T)
      (a s s' : T) (e : error_value) :
  all_succeed pre a s -> m s = (s', Some e) ->
  run (pre ++ m :: post) a = (S (length pre), s', Some e).
Proof.
  intros Hpre Hm. rewrite run_app, (run_all_succeed _ _ _ Hpre). simpl.
  rewrite Hm. f_equal. f_equal. lia.
Qed.

Lemma all_succeed_never_fails (ms : list (Mutator T)) (a : T) :
  Forall never_fails ms -> all_succeed ms a (assign_all ms a).
Proof.
  intros F. revert a. induction F as [|m ms Hm _ IH]; intros a; simpl.
  - constructor.
  - econstructor; [|apply IH].
    specialize (Hm a). destruct (m a) as [a1 e]. simpl in *. now subst.
Qed.

Lemma apply_from_run (i j : nat) (ms : list (Mutator T)) (a : T) :
  apply_from i j ms a =
  let '(n, a', e) := run ms a in (map (Invoke i) (seq j n), flow_of a' e).
Proof.
  revert j a. induction ms as [|m ms IH]; intros j a; [reflexivity|].
  cbn [apply_from run]. destruct (m a) as [a1 [e|]]; [reflexivity|].
  cbn [not_nil when]. rewrite IH.
  destruct (run ms a1) as [[n a2] e]. reflexivity.
Qed.

Lemma positions_from_length (i : nat) (opts : list (lister T)) :
  length (positions_from i opts) = length (flatten opts).
Proof.
  revert i. induction opts as [|l opts IH]; intros i; [reflexivity|].
  unfold flatten in *. simpl.
  rewrite !length_app, length_map, length_seq, IH. reflexivity.
Qed.

Lemma apply_listers_run (i : nat) (opts : list (lister T)) (a : T) :
  apply_listers i opts a =
  let '(n, a', e) := run (flatten opts) a in
  (firstn n (positions_from i opts), flow_of a' e).
Proof.
  revert i a. induction opts as [|l opts IH]; intros i a; [reflexivity|].
  cbn [apply_listers positions_from]. unfold flatten. cbn [map concat].
  fold (flatten opts). rewrite run_app, apply_from_run.
  pose proof (run_le (mutators l) a) as Hle.
  destruct (run (mutators l) a) as [[n a1] [e|]] eqn:E; simpl in Hle.
  - cbn [flow_of]. rewrite bind_ret. f_equal.
    rewrite firstn_app, firstn_map, firstn_seq_le by lia.
    rewrite length_map, length_seq.
    replace (n - length (mutators l))%nat with 0%nat by lia.
    simpl. now rewrite app_nil_r.
  - cbn [flow_of]. rewrite bind_next, IH.
    apply run_ok_length in E. subst n.
    destruct (run (flatten opts) a1) as [[n' a2] e']. cbn [fst snd].
    f_equal. set (l1 := map (Invoke i) (seq 0 (length (mutators l)))).
    assert (Hl : length l1 = length (mutators l))
      by (unfold l1; now rewrite length_map, length_seq).
    rewrite <- Hl. symmetry. apply firstn_app_2.
Qed.

(** [Build] in closed form. *)
Lemma Build_run (opts : list (lister T)) :
  Build opts =
  let '(n, a, e) := run (flatten opts) zero in
  (firstn n (positions opts),
   match e with
   | None => Ret (Some a, None)
   | Some _ => Ret (None, e)
   end).
Proof.
  unfold Build. rewrite apply_listers_run.
  destruct (run (flatten opts) zero) as [[n a] [e|]]; simpl; [reflexivity|].
  now rewrite app_nil_r.
Qed.

Lemma Build_all_succeed (opts : list (lister T)) (a : T) :
  all_succeed (flatten opts) zero a ->
  Build opts = (positions opts, Ret (Some a, None)).
Proof.
  intros Hs. rewrite Build_run, (run_all_succeed _ _ _ Hs).
  unfold positions. now rewrite <- (positions_from_length 0), firstn_all.
Qed.

Lemma Build_signals_error (opts : list (lister T)) (k : nat) (e : error_value) :
  signals_error opts k e ->
  Build opts = (firstn (S k) (positions opts), Ret (None, Some e)).
Proof.
  intros (pre & m & post & s & s' & Hflat & Hk & Hpre & Hm).
  rewrite Build_run, Hflat, (run_first_error _ _ _ _ _ _ _ Hpre Hm), Hk.
  reflexivity.
Qed.

(** [Build] never panics, and hands out exactly one of a value and an
    error. *)
Lemma Build_cases (opts : list (lister T)) :
  (exists a, result (Build opts) = Returned (Some a, None)) \/
  (exists e, result (Build opts) = Returned (None, Some e)).
Proof.
  rewrite Build_run. destruct (run (flatten opts) zero) as [[n a] [e|]].
  - right. now exists e.
  - left. now exists a.
Qed.

End BuildFacts.

(** * The constructors after Build *)

Ltac run_checks :=
  unfold checked; cbn -[String.eqb Z.ltb];
  repeat match goal with
         | |- context [String.eqb ?s ""] => destruct (String.eqb s "")
         | |- context [Z.ltb ?z 0] => destruct (Z.ltb z 0)
         | |- _ => progress cbn -[String.eqb Z.ltb]
         end;
  rewrite ?app_nil_r; try reflexivity.

Lemma NewRedisConfig_build_error opts p e :
  result (Build opts) = Returned (p, Some e) ->
  NewRedisConfig opts = (trace (Build opts), Ret (None, Some e)).
Proof.
  intros HB. unfold NewRedisConfig. rewrite (call_returned _ _ HB).
  cbn. now rewrite app_nil_r.
Qed.

Lemma NewRedisConfig_checked opts p :
  result (Build opts) = Returned (p, None) ->
  (trace (NewRedisConfig opts), result (NewRedisConfig opts)) =
  (trace (Build opts) ++ fst (checked redis_checklist redis_config_of p),
   snd (checked redis_checklist redis_config_of p)).
Proof.
  intros HB. unfold NewRedisConfig. rewrite (call_returned _ _ HB).
  destruct p as [o|]; run_checks.
Qed.

Lemma NewMinioConfig_build_error opts p e :
  result (Build opts) = Returned (p, Some e) ->
  NewMinioConfig opts = (trace (Build opts), Ret (None, Some e)).
Proof.
  intros HB. unfold NewMinioConfig. rewrite (call_returned _ _ HB).
  cbn. now rewrite app_nil_r.
Qed.

Lemma NewMinioConfig_checked opts o :
  result (Build opts) = Returned (Some o, None) ->
  (trace (NewMinioConfig opts), result (NewMinioConfig opts)) =
  (trace (Build opts) ++ fst (checked minio_checklist minio_config_of o),
   snd (checked minio_checklist minio_config_of o)).
Proof.
  intros HB. unfold NewMinioConfig. rewrite (call_returned _ _ HB).
  run_checks.
Qed.

Lemma NewFileBucketConfig_build_error opts p e :
  result (Build opts) = Returned (p, Some e) ->
  NewFileBucketConfig opts = (trace (Build opts), Ret (None, Some e)).
Proof.
  intros HB. unfold NewFileBucketConfig. rewrite (call_returned _ _ HB).
  cbn. now rewrite app_nil_r.
Qed.

Lemma NewFileBucketConfig_checked opts o :
  result (Build opts) = Returned (Some o, None) ->
  (trace (NewFileBucketConfig opts), result (NewFileBucketConfig opts)) =
  (trace (Build opts)
     ++ fst (checked file_bucket_checklist file_bucket_config_of o),
   snd (checked file_bucket_checklist file_bucket_config_of o)).
Proof.
  intros HB. unfold NewFileBucketConfig. rewrite (call_returned _ _ HB).
  run_checks.
Qed.

(** * Setter calls and last-write-wins *)

Lemma last_value_app {C V : Type} (sel : C -> option V) (d : V)
      (cs1 cs2 : list C) :
  last_value sel d (cs1 ++ cs2) = last_value sel (last_value sel d cs1) cs2.
Proof. unfold last_value. apply fold_left_app. Qed.

Lemma last_value_unset {C V : Type} (sel : C -> option V) (d : V)
      (cs : list C) :
  (forall c, In c cs -> sel c = None) -> last_value sel d cs = d.
Proof.
  revert d. induction cs as [|c cs IH]; intros d Hn; [reflexivity|].
  unfold last_value in *. simpl. rewrite (Hn c) by now left.
  simpl. apply IH. intros c' Hc'. apply Hn. now right.
Qed.

Lemma last_value_last {C V : Type} (sel : C -> option V) (d : V)
      (pre post : list C) (c : C) (v : V) :
  sel c = Some v ->
  (forall c', In c' post -> sel c' = None) ->
  last_value sel d (pre ++ c :: post) = v.
Proof.
  intros Hc Hpost. rewrite last_value_app.
  change (c :: post) with ([c] ++ post). rewrite last_value_app.
  rewrite (last_value_unset _ _ _ Hpost). unfold last_value. simpl.
  now rewrite Hc.
Qed.

Lemma last_value_agree {C V : Type} (sel : C -> option V) (d v : V)
      (cs : list C) :
  (exists c, In c cs /\ sel c = Some v) ->
  (forall c v', In c cs -> sel c = Some v' -> v' = v) ->
  last_value sel d cs = v.
Proof.
  revert d. induction cs as [|c cs IH] using rev_ind; intros d [c0 [Hin Hc0]] Hall.
  - destruct Hin.
  - rewrite last_value_app. unfold last_value at 1. simpl.
    destruct (sel c) as [v'|] eqn:E; simpl.
    + apply (Hall c); [apply in_or_app; right; now left | exact E].
    + apply IH.
      * apply in_app_or in Hin. destruct Hin as [Hin|[<-|[]]];
          [now exists c0 | congruence].
      * intros c1 v1 H1. apply Hall. apply in_or_app. now left.
Qed.

Section LastWrite.
Context {T C V : Type} `{Zero T}.
Variable muts : C -> list (Mutator T).
Variable get : T -> V.
Variable sel : C -> option V.
Hypothesis get_muts :
  forall c a, get (assign_all (muts c) a) = or_else (sel c) (get a).

Lemma assign_all_app (ms1 ms2 : list (Mutator T)) (a : T) :
  assign_all (ms1 ++ ms2) a = assign_all ms2 (assign_all ms1 a).
Proof. unfold assign_all. apply fold_left_app. Qed.

Lemma get_assign_all (cs : list C) (a : T) :
  get (assign_all (flat_map muts cs) a) = last_value sel (get a) cs.
Proof.
  revert a. induction cs as [|c cs IH]; intros a; [reflexivity|].
  simpl. rewrite assign_all_app, IH, get_muts. reflexivity.
Qed.
End LastWrite.

Lemma Forall_flat_map {A B : Type} (P : B -> Prop) (f : A -> list B)
      (l : list A) :
  (forall a, Forall P (f a)) -> Forall P (flat_map f l).
Proof.
  intros Hf. induction l as [|a l IH]; simpl; [constructor|].
  apply Forall_app. split; [apply Hf | exact IH].
Qed.

Lemma flat_map_concat_map {A B : Type} (f : A -> list B) (ls : list (list A)) :
  concat (map (flat_map f) ls) = flat_map f (concat ls).
Proof.
  induction ls as [|l ls IH]; simpl; [reflexivity|].
  now rewrite flat_map_app, IH.
Qed.

(** ** Redis *)

Lemma redis_call_appends c b :
  RedisConfigOptionsBuilder.Opts (redis_call c b) =
  RedisConfigOptionsBuilder.Opts b ++ redis_appended c.
Proof. destruct c; reflexivity. Qed.

Lemma redis_appended_never_fails c : Forall never_fails (redis_appended c).
Proof. destruct c; repeat constructor. Qed.

Lemma redis_builder_Opts cs :
  RedisConfigOptionsBuilder.Opts (redis_builder cs) = flat_map redis_appended cs.
Proof.
  unfold redis_builder.
  change (flat_map redis_appended cs) with
    (RedisConfigOptionsBuilder.Opts NewRedisConfigOptionsBuilder
       ++ flat_map redis_appended cs).
  generalize NewRedisConfigOptionsBuilder as b.
  induction cs as [|c cs IH]; intros b; simpl; [now rewrite app_nil_r|].
  rewrite IH, redis_call_appends, <- app_assoc. reflexivity.
Qed.

Lemma redis_assign_all cs :
  assign_all (flat_map redis_appended cs) zero = redis_options_of cs.
Proof.
  pose proof (get_assign_all redis_appended RedisConfigOptions.Addr addr_arg) as HA.
  pose proof (get_assign_all redis_appended RedisConfigOptions.Password
                password_arg) as HP.
  pose proof (get_assign_all redis_appended RedisConfigOptions.DB db_arg) as HD.
  specialize (HA ltac:(intros [] []; reflexivity) cs zero).
  specialize (HP ltac:(intros [] []; reflexivity) cs zero).
  specialize (HD ltac:(intros [] []; reflexivity) cs zero).
  unfold redis_options_of.
  destruct (assign_all (flat_map redis_appended cs) zero). simpl in *.
  now subst.
Qed.

Lemma redis_flatten (css : list (list RedisSetterCall)) :
  flatten (map (fun cs => as_lister (redis_builder cs)) css) =
  flat_map redis_appended (concat css).
Proof.
  unfold flatten. rewrite map_map. cbn [mutators].
  rewrite <- flat_map_concat_map. f_equal. apply map_ext.
  intros cs. apply redis_builder_Opts.
Qed.

Lemma Build_redis_builders (css : list (list RedisSetterCall)) :
  let opts := map (fun cs => as_lister (redis_builder cs)) css in
  Build opts = (positions opts, Ret (Some (redis_options_of (concat css)), None)).
Proof.
  intros opts. apply Build_all_succeed. unfold opts.
  rewrite redis_flatten, <- redis_assign_all.
  apply all_succeed_never_fails, Forall_flat_map, redis_appended_never_fails.
Qed.

(** ** Minio *)

Lemma minio_call_appends c b :
  MinioOptionBuilder.Opts (minio_call c b) =
  MinioOptionBuilder.Opts b ++ minio_appended c.
Proof. destruct c; reflexivity. Qed.

Lemma minio_appended_never_fails c : Forall never_fails (minio_appended c).
Proof. destruct c; repeat constructor. Qed.

Lemma minio_builder_Opts cs :
  MinioOptionBuilder.Opts (minio_builder cs) = flat_map minio_appended cs.
Proof.
  unfold minio_builder.
  change (flat_map minio_appended cs) with
    (MinioOptionBuilder.Opts NewMinioOption ++ flat_map minio_appended cs).
  generalize NewMinioOption as b.
  induction cs as [|c cs IH]; intros b; simpl; [now rewrite app_nil_r|].
  rewrite IH, minio_call_appends, <- app_assoc. reflexivity.
Qed.

Lemma minio_assign_all cs :
  assign_all (flat_map minio_appended cs) zero = minio_options_of cs.
Proof.
  pose proof (get_assign_all minio_appended MinioOption.Endpoint endpoint_arg
                ltac:(intros [] []; reflexivity) cs zero) as H1.
  pose proof (get_assign_all minio_appended MinioOption.AccessKey accessKey_arg
                ltac:(intros [] []; reflexivity) cs zero) as H2.
  pose proof (get_assign_all minio_appended MinioOption.SecretKey secretKey_arg
                ltac:(intros [] []; reflexivity) cs zero) as H3.
  pose proof (get_assign_all minio_appended MinioOption.UseSSL useSSL_arg
                ltac:(intros [] []; reflexivity) cs zero) as H4.
  pose proof (get_assign_all minio_appended MinioOption.BucketName
                bucketName_arg ltac:(intros [] []; reflexivity) cs zero) as H5.
  pose proof (get_assign_all minio_appended MinioOption.Region region_arg
                ltac:(intros [] []; reflexivity) cs zero) as H6.
  unfold minio_options_of.
  destruct (assign_all (flat_map minio_appended cs) zero). simpl in *.
  now subst.
Qed.

Lemma minio_flatten (css : list (list MinioSetterCall)) :
  flatten (map (fun cs => as_lister (minio_builder cs)) css) =
  flat_map minio_appended (concat css).
Proof.
  unfold flatten. rewrite map_map. cbn [mutators].
  rewrite <- flat_map_concat_map. f_equal. apply map_ext.
  intros cs. apply minio_builder_Opts.
Qed.

Lemma Build_minio_builders (css : list (list MinioSetterCall)) :
  let opts := map (fun cs => as_lister (minio_builder cs)) css in
  Build opts = (positions opts, Ret (Some (minio_options_of (concat css)), None)).
Proof.
  intros opts. apply Build_all_succeed. unfold opts.
  rewrite minio_flatten, <- minio_assign_all.
  apply all_succeed_never_fails, Forall_flat_map, minio_appended_never_fails.
Qed.

(** ** File bucket *)

Lemma file_bucket_call_appends c b :
  FileBucketOptionBuilder.Opts (file_bucket_call c b) =
  FileBucketOptionBuilder.Opts b ++ file_bucket_appended c.
Proof. destruct c; reflexivity. Qed.

Lemma file_bucket_appended_never_fails c :
  Forall never_fails (file_bucket_appended c).
Proof. destruct c; repeat constructor. Qed.

Lemma file_bucket_builder_Opts cs :
  FileBucketOptionBuilder.Opts (file_bucket_builder cs) =
  flat_map file_bucket_appended cs.
Proof.
  unfold file_bucket_builder.
  change (flat_map file_bucket_appended cs) with
    (FileBucketOptionBuilder.Opts NewFileBucketOption
       ++ flat_map file_bucket_appended cs).
  generalize NewFileBucketOption as b.
  induction cs as [|c cs IH]; intros b; simpl; [now rewrite app_nil_r|].
  rewrite IH, file_bucket_call_appends, <- app_assoc. reflexivity.
Qed.

Lemma file_bucket_assign_all cs :
  assign_all (flat_map file_bucket_appended cs) zero = file_bucket_options_of cs.
Proof.
  pose proof (get_assign_all file_bucket_appended FileBucketOption.BasePath
                basePath_arg ltac:(intros [] []; reflexivity) cs zero) as H1.
  unfold file_bucket_options_of.
  destruct (assign_all (flat_map file_bucket_appended cs) zero). simpl in *.
  now subst.
Qed.

Lemma file_bucket_flatten (css : list (list FileBucketSetterCall)) :
  flatten (map (fun cs => as_lister (file_bucket_builder cs)) css) =
  flat_map file_bucket_appended (concat css).
Proof.
  unfold flatten. rewrite map_map. cbn [mutators].
  rewrite <- flat_map_concat_map. f_equal. apply map_ext.
  intros cs. apply file_bucket_builder_Opts.
Qed.

Lemma Build_file_bucket_builders (css : list (list FileBucketSetterCall)) :
  let opts := map (fun cs => as_lister (file_bucket_builder cs)) css in
  Build opts =
  (positions opts, Ret (Some (file_bucket_options_of (concat css)), None)).
Proof.
  intros opts. apply Build_all_succeed. unfold opts.
  rewrite file_bucket_flatten, <- file_bucket_assign_all.
  apply all_succeed_never_fails, Forall_flat_map,
    file_bucket_appended_never_fails.
Qed.

(** A single builder, as the constructors usually receive it. *)
Lemma one_builder {A : Type} (l : list A) : concat [l] = l.
Proof. simpl. apply app_nil_r. Qed.

Lemma positions_one {T : Type} (l : lister T) (n : nat) :
  length (mutators l) = n ->
  positions [l] = map (Invoke 0) (seq 0 n).
Proof. intros <-. unfold positions. simpl. apply app_nil_r. Qed.

Lemma Build_redis_builder cs :
  Build [as_lister (redis_builder cs)] =
  (map (Invoke 0) (seq 0 (length cs)), Ret (Some (redis_options_of cs), None)).
Proof.
  pose proof (Build_redis_builders [cs]) as HB. cbn [map] in HB.
  rewrite one_builder in HB. rewrite HB. f_equal. apply positions_one.
  cbn [mutators]. unfold List, Lister_RedisConfigOptionsBuilder,
    RedisConfigOptionsBuilder.List.
  rewrite redis_builder_Opts, flat_map_constant_length with (c := 1%nat);
    [lia | now intros []].
Qed.

Lemma Build_minio_builder cs :
  Build [as_lister (minio_builder cs)] =
  (map (Invoke 0) (seq 0 (length cs)), Ret (Some (minio_options_of cs), None)).
Proof.
  pose proof (Build_minio_builders [cs]) as HB. cbn [map] in HB.
  rewrite one_builder in HB. rewrite HB. f_equal. apply positions_one.
  cbn [mutators]. unfold List, Lister_MinioOptionBuilder,
    MinioOptionBuilder.List.
  rewrite minio_builder_Opts, flat_map_constant_length with (c := 1%nat);
    [lia | now intros []].
Qed.

Lemma Build_file_bucket_builder cs :
  Build [as_lister (file_bucket_builder cs)] =
  (map (Invoke 0) (seq 0 (length cs)),
   Ret (Some (file_bucket_options_of cs), None)).
Proof.
  pose proof (Build_file_bucket_builders [cs]) as HB. cbn [map] in HB.
  rewrite one_builder in HB. rewrite HB. f_equal. apply positions_one.
  cbn [mutators]. unfold List, Lister_FileBucketOptionBuilder,
    FileBucketOptionBuilder.List.
  rewrite file_bucket_builder_Opts, flat_map_constant_length with (c := 1%nat);
    [lia | now intros []].
Qed.

Lemma NewRedisConfig_result opts p :
  result (Build opts) = Returned (p, None) ->
  result (NewRedisConfig opts) =
  snd (checked redis_checklist redis_config_of p).
Proof. intros HB. exact (f_equal snd (NewRedisConfig_checked opts p HB)). Qed.

Lemma NewMinioConfig_result opts o :
  result (Build opts) = Returned (Some o, None) ->
  result (NewMinioConfig opts) =
  snd (checked minio_checklist minio_config_of o).
Proof. intros HB. exact (f_equal snd (NewMinioConfig_checked opts o HB)). Qed.

Lemma NewFileBucketConfig_result opts o :
  result (Build opts) = Returned (Some o, None) ->
  result (NewFileBucketConfig opts) =
  snd (checked file_bucket_checklist file_bucket_config_of o).
Proof.
  intros HB. exact (f_equal snd (NewFileBucketConfig_checked opts o HB)).
Qed.

(** * The claims *)

(** C1.  When mutator number [k] of the sequence handed to [Build] signals an
    error [e], [Build] returns exactly [e] together with a nil Options
    pointer, and the mutators invoked are those at positions [0..k], each
    once and in order: none behind [k] runs.  Each constructor then returns
    that same error with a nil Config, having evaluated no validation rule. *)
Theorem Build_error_stops_and_propagates :
  (forall (T : Type) (ZT : Zero T) (opts : list (lister T)) (k : nat)
          (e : error_value),
      signals_error opts k e ->
      result (Build opts) = Returned (None, Some e) /\
      trace (Build opts) = firstn (S k) (positions opts)) /\
  (forall opts k e,
      signals_error opts k e ->
      result (NewRedisConfig opts) = Returned (None, Some e) /\
      trace (NewRedisConfig opts) = firstn (S k) (positions opts)) /\
  (forall opts k e,
      signals_error opts k e ->
      result (NewMinioConfig opts) = Returned (None, Some e) /\
      trace (NewMinioConfig opts) = firstn (S k) (positions opts)) /\
  (forall opts k e,
      signals_error opts k e ->
      result (NewFileBucketConfig opts) = Returned (None, Some e) /\
      trace (NewFileBucketConfig opts) = firstn (S k) (positions opts)).
Proof.
  assert (HB : forall (T : Type) (ZT : Zero T) (opts : list (lister T)) k e,
             signals_error opts k e ->
             result (Build opts) = Returned (None, Some e) /\
             trace (Build opts) = firstn (S k) (positions opts)).
  { intros T ZT opts k e Hs. rewrite (Build_signals_error _ _ _ Hs).
    split; reflexivity. }
  split; [exact HB|].
  split; [|split]; intros opts k e Hs;
    destruct (HB _ _ opts k e Hs) as [Hr Ht].
  - rewrite (NewRedisConfig_build_error _ _ _ Hr). now split.
  - rewrite (NewMinioConfig_build_error _ _ _ Hr). now split.
  - rewrite (NewFileBucketConfig_build_error _ _ _ Hr). now split.
Qed.

Lemma failing_redis_opts_signal :
  signals_error failing_redis_opts 1 (mk_error "boom").
Proof.
  unfold signals_error, failing_redis_opts, flatten. cbn.
  eexists [_], _, [_], _, _. repeat split.
  econstructor; [reflexivity | constructor].
Defined.

Lemma failing_minio_opts_signal :
  signals_error failing_minio_opts 0 (mk_error "boom").
Proof.
  unfold signals_error, failing_minio_opts, flatten. cbn.
  eexists [], _, [_; _], _, _. repeat split. constructor.
Defined.

Lemma failing_file_bucket_opts_signal :
  signals_error failing_file_bucket_opts 1 (mk_error "boom").
Proof.
  unfold signals_error, failing_file_bucket_opts, flatten. cbn.
  eexists [_], _, [], _, _. repeat split.
  econstructor; [reflexivity | constructor].
Defined.

Lemma Build_error_stops_and_propagates_witness :
  (result (Build failing_redis_opts) = Returned (None, errors_New "boom") /\
   trace (Build failing_redis_opts) = [Invoke 0 0; Invoke 1 0]) /\
  (result (NewRedisConfig failing_redis_opts)
   = Returned (None, errors_New "boom") /\
   trace (NewRedisConfig failing_redis_opts) = [Invoke 0 0; Invoke 1 0]) /\
  (result (NewMinioConfig failing_minio_opts)
   = Returned (None, errors_New "boom") /\
   trace (NewMinioConfig failing_minio_opts) = [Invoke 0 0]) /\
  (result (NewFileBucketConfig failing_file_bucket_opts)
   = Returned (None, errors_New "boom") /\
   trace (NewFileBucketConfig failing_file_bucket_opts)
   = [Invoke 0 0; Invoke 1 0]).
Proof.
  destruct Build_error_stops_and_propagates as (HB & HR & HM & HF).
  split; [|split; [|split]].
  - exact (HB _ _ failing_redis_opts 1%nat (mk_error "boom")
              failing_redis_opts_signal).
  - exact (HR failing_redis_opts 1%nat (mk_error "boom")
              failing_redis_opts_signal).
  - exact (HM failing_minio_opts 0%nat (mk_error "boom")
              failing_minio_opts_signal).
  - exact (HF failing_file_bucket_opts 1%nat (mk_error "boom")
              failing_file_bucket_opts_signal).
Defined.

(** C2.  Every setter call appends exactly one mutator at the end of the
    builder's list; that mutator reports no error and assigns the call's
    argument to the call's own field, leaving every other field as it was.
    [Build] over a builder invokes the appended mutators once each, in append
    order.  Hence, for a chain of calls [pre ++ c :: post] in which no call of
    [post] sets the field that [c] sets, the field built holds the argument
    of [c], whatever [pre] contains. *)
Theorem last_write_wins :
  (* each setter appends one mutator for its own field *)
  (forall c b, exists m,
      RedisConfigOptionsBuilder.List (redis_call c b) =
      RedisConfigOptionsBuilder.List b ++ [m] /\
      forall o,
        snd (m o) = None /\
        RedisConfigOptions.Addr (fst (m o)) =
          or_else (addr_arg c) (RedisConfigOptions.Addr o) /\
        RedisConfigOptions.Password (fst (m o)) =
          or_else (password_arg c) (RedisConfigOptions.Password o) /\
        RedisConfigOptions.DB (fst (m o)) =
          or_else (db_arg c) (RedisConfigOptions.DB o)) /\
  (forall c b, exists m,
      MinioOptionBuilder.List (minio_call c b) =
      MinioOptionBuilder.List b ++ [m] /\
      forall o,
        snd (m o) = None /\
        MinioOption.Endpoint (fst (m o)) =
          or_else (endpoint_arg c) (MinioOption.Endpoint o) /\
        MinioOption.AccessKey (fst (m o)) =
          or_else (accessKey_arg c) (MinioOption.AccessKey o) /\
        MinioOption.SecretKey (fst (m o)) =
          or_else (secretKey_arg c) (MinioOption.SecretKey o) /\
        MinioOption.UseSSL (fst (m o)) =
          or_else (useSSL_arg c) (MinioOption.UseSSL o) /\
        MinioOption.BucketName (fst (m o)) =
          or_else (bucketName_arg c) (MinioOption.BucketName o) /\
        MinioOption.Region (fst (m o)) =
          or_else (region_arg c) (MinioOption.Region o)) /\
  (forall c b, exists m,
      FileBucketOptionBuilder.List (file_bucket_call c b) =
      FileBucketOptionBuilder.List b ++ [m] /\
      forall o,
        snd (m o) = None /\
        FileBucketOption.BasePath (fst (m o)) =
          or_else (basePath_arg c) (FileBucketOption.BasePath o)) /\
  (* Build invokes them in append order *)
  (forall cs, trace (Build [as_lister (redis_builder cs)]) =
              map (Invoke 0) (seq 0 (length cs))) /\
  (forall cs, trace (Build [as_lister (minio_builder cs)]) =
              map (Invoke 0) (seq 0 (length cs))) /\
  (forall cs, trace (Build [as_lister (file_bucket_builder cs)]) =
              map (Invoke 0) (seq 0 (length cs))) /\
  (* the last call on a field decides it *)
  (forall pre c post, exists o,
      result (Build [as_lister (redis_builder (pre ++ c :: post))])
      = Returned (Some o, None) /\
      (forall v, addr_arg c = Some v ->
                 (forall c', In c' post -> addr_arg c' = None) ->
                 RedisConfigOptions.Addr o = v) /\
      (forall v, password_arg c = Some v ->
                 (forall c', In c' post -> password_arg c' = None) ->
                 RedisConfigOptions.Password o = v) /\
      (forall v, db_arg c = Some v ->
                 (forall c', In c' post -> db_arg c' = None) ->
                 RedisConfigOptions.DB o = v)) /\
  (forall pre c post, exists o,
      result (Build [as_lister (minio_builder (pre ++ c :: post))])
      = Returned (Some o, None) /\
      (forall v, endpoint_arg c = Some v ->
                 (forall c', In c' post -> endpoint_arg c' = None) ->
                 MinioOption.Endpoint o = v) /\
      (forall v, accessKey_arg c = Some v ->
                 (forall c', In c' post -> accessKey_arg c' = None) ->
                 MinioOption.AccessKey o = v) /\
      (forall v, secretKey_arg c = Some v ->
                 (forall c', In c' post -> secretKey_arg c' = None) ->
                 MinioOption.SecretKey o = v) /\
      (forall v, useSSL_arg c = Some v ->
                 (forall c', In c' post -> useSSL_arg c' = None) ->
                 MinioOption.UseSSL o = v) /\
      (forall v, bucketName_arg c = Some v ->
                 (forall c', In c' post -> bucketName_arg c' = None) ->
                 MinioOption.BucketName o = v) /\
      (forall v, region_arg c = Some v ->
                 (forall c', In c' post -> region_arg c' = None) ->
                 MinioOption.Region o = v)) /\
  (forall pre c post, exists o,
      result (Build [as_lister (file_bucket_builder (pre ++ c :: post))])
      = Returned (Some o, None) /\
      (forall v, basePath_arg c = Some v ->
                 (forall c', In c' post -> basePath_arg c' = None) ->
                 FileBucketOption.BasePath o = v)).
Proof.
  split; [|split; [|split]].
  - intros [] b; eexists; (split; [reflexivity|]); intros o; cbn; tauto.
  - intros [] b; eexists; (split; [reflexivity|]); intros o; cbn; tauto.
  - intros [] b; eexists; (split; [reflexivity|]); intros o; cbn; tauto.
  - split; [|split; [|split; [|split; [|split]]]].
    + intros cs. now rewrite Build_redis_builder.
    + intros cs. now rewrite Build_minio_builder.
    + intros cs. now rewrite Build_file_bucket_builder.
    + intros pre c post. eexists. split.
      * rewrite Build_redis_builder. reflexivity.
      * cbn [redis_options_of RedisConfigOptions.Addr
               RedisConfigOptions.Password RedisConfigOptions.DB].
        repeat split; intros v Hc Hpost; now apply last_value_last.
    + intros pre c post. eexists. split.
      * rewrite Build_minio_builder. reflexivity.
      * cbn [minio_options_of MinioOption.Endpoint MinioOption.AccessKey
               MinioOption.SecretKey MinioOption.UseSSL MinioOption.BucketName
               MinioOption.Region].
        repeat split; intros v Hc Hpost; now apply last_value_last.
    + intros pre c post. eexists. split.
      * rewrite Build_file_bucket_builder. reflexivity.
      * cbn [file_bucket_options_of FileBucketOption.BasePath].
        intros v Hc Hpost; now apply last_value_last.
Qed.

Lemma last_write_wins_witness :
  (exists o,
      result (Build [as_lister
                       (NewRedisConfigOptionsBuilder
                        |> RedisConfigOptionsBuilder.SetAddr "first"
                        |> RedisConfigOptionsBuilder.SetDB 3
                        |> RedisConfigOptionsBuilder.SetAddr "second"
                        |> RedisConfigOptionsBuilder.SetPassword "p")])
      = Returned (Some o, None) /\
      RedisConfigOptions.Addr o = "second") /\
  (exists o,
      result (Build [as_lister
                       (NewMinioOption
                        |> MinioOptionBuilder.SetEndpoint "https://a"
                        |> MinioOptionBuilder.SetEndpoint "https://b"
                        |> MinioOptionBuilder.SetUseSSL true)])
      = Returned (Some o, None) /\
      MinioOption.Endpoint o = "https://b") /\
  (exists o,
      result (Build [as_lister
                       (NewFileBucketOption
                        |> FileBucketOptionBuilder.SetBasePath "/tmp"
                        |> FileBucketOptionBuilder.SetBasePath "/data")])
      = Returned (Some o, None) /\
      FileBucketOption.BasePath o = "/data").
Proof.
  destruct last_write_wins as (_ & _ & _ & _ & _ & _ & HR & HM & HF).
  split; [|split].
  - destruct (HR [RedisSetAddr "first"; RedisSetDB 3] (RedisSetAddr "second")
                 [RedisSetPassword "p"]) as (o & HB & HA & _).
    exists o. split; [exact HB|].
    apply HA; [reflexivity|]. intros c' [<-|[]]. reflexivity.
  - destruct (HM [MinioSetEndpoint "https://a"] (MinioSetEndpoint "https://b")
                 [MinioSetUseSSL true]) as (o & HB & HE & _).
    exists o. split; [exact HB|].
    apply HE; [reflexivity|]. intros c' [<-|[]]. reflexivity.
  - destruct (HF [FileBucketSetBasePath "/tmp"] (FileBucketSetBasePath "/data")
                 []) as (o & HB & HP).
    exists o. split; [exact HB|].
    apply HP; [reflexivity|]. intros c' [].
Defined.

(** C3.  Whatever is passed to a constructor, a Config it returns comes
    without an error and satisfies the constructor's rules: a RedisConfig has
    a non-empty Addr and DB >= 0, a MinioConfig has non-empty Endpoint,
    AccessKey, SecretKey and BucketName, a FileBucketConfig has a non-empty
    BasePath. *)
Theorem returned_config_is_valid :
  (forall opts cfg err,
      result (NewRedisConfig opts) = Returned (Some cfg, err) ->
      err = None /\
      RedisConfig.Addr cfg <> "" /\
      0 <= RedisConfig.DB cfg) /\
  (forall opts cfg err,
      result (NewMinioConfig opts) = Returned (Some cfg, err) ->
      err = None /\
      MinioConfig.Endpoint cfg <> "" /\
      MinioConfig.AccessKey cfg <> "" /\
      MinioConfig.SecretKey cfg <> "" /\
      MinioConfig.BucketName cfg <> "") /\
  (forall opts cfg err,
      result (NewFileBucketConfig opts) = Returned (Some cfg, err) ->
      err = None /\
      FileBucketConfig.BasePath cfg <> "").
Proof.
  split; [|split]; intros opts cfg err.
  - unfold NewRedisConfig, call.
    destruct (result (Build opts)) as [[[o|] [e|]]|];
      cbn -[String.eqb Z.ltb]; try discriminate.
    destruct (String.eqb_spec (RedisConfigOptions.Addr o) "") as [|Ha];
      cbn -[Z.ltb]; [discriminate|].
    destruct (Z.ltb_spec (RedisConfigOptions.DB o) 0) as [|Hd];
      cbn; [discriminate|].
    intros [= <- <-]. cbn. repeat split; assumption.
  - unfold NewMinioConfig, call.
    destruct (result (Build opts)) as [[[o|] [e|]]|];
      cbn -[String.eqb]; try discriminate.
    destruct (String.eqb_spec (MinioOption.Endpoint o) "") as [|H1];
      cbn -[String.eqb]; [discriminate|].
    destruct (String.eqb_spec (MinioOption.AccessKey o) "") as [|H2];
      cbn -[String.eqb]; [discriminate|].
    destruct (String.eqb_spec (MinioOption.SecretKey o) "") as [|H3];
      cbn -[String.eqb]; [discriminate|].
    destruct (String.eqb_spec (MinioOption.BucketName o) "") as [|H4];
      cbn; [discriminate|].
    intros [= <- <-]. cbn. repeat split; assumption.
  - unfold NewFileBucketConfig, call.
    destruct (result (Build opts)) as [[[o|] [e|]]|];
      cbn -[String.eqb]; try discriminate.
    destruct (String.eqb_spec (FileBucketOption.BasePath o) "") as [|H1];
      cbn; [discriminate|].
    intros [= <- <-]. cbn. repeat split; assumption.
Qed.

Lemma returned_config_is_valid_witness :
  (result (NewRedisConfig redis_example_opts) =
   Returned (Some {| RedisConfig.Addr := "localhost:6379";
                     RedisConfig.Password := "";
                     RedisConfig.DB := 0 |}, None) /\
   (None = None :> error /\ "localhost:6379" <> "" /\ 0 <= 0)) /\
  (result (NewMinioConfig minio_example_opts) =
   Returned (Some minio_example_config, None) /\
   (None = None :> error /\
    "https://x" <> "" /\ "a" <> "" /\ "b" <> "" /\ "bkt" <> "")) /\
  (result (NewFileBucketConfig file_bucket_example_opts) =
   Returned (Some {| FileBucketConfig.BasePath := "/data" |}, None) /\
   (None = None :> error /\ "/data" <> "")).
Proof.
  destruct returned_config_is_valid as (HR & HM & HF).
  split; [|split]; (split; [reflexivity|]).
  - exact (HR redis_example_opts
              {| RedisConfig.Addr := "localhost:6379";
                 RedisConfig.Password := "";
                 RedisConfig.DB := 0 |} None eq_refl).
  - exact (HM minio_example_opts minio_example_config None eq_refl).
  - exact (HF file_bucket_example_opts
              {| FileBucketConfig.BasePath := "/data" |} None eq_refl).
Defined.

(** C4.  A Minio builder on which SetEndpoint("https://x"), SetAccessKey("a"),
    SetSecretKey("b") and SetBucketName("bkt") were called (in any order, and
    nothing else) makes NewMinioConfig succeed with exactly those four values,
    UseSSL = false and Region = "". *)
Theorem NewMinioConfig_example :
  forall cs,
    (forall c, In c cs <-> In c minio_example_calls) ->
    result (NewMinioConfig [as_lister (minio_builder cs)]) =
    Returned (Some {| MinioConfig.Endpoint := "https://x";
                      MinioConfig.AccessKey := "a";
                      MinioConfig.SecretKey := "b";
                      MinioConfig.UseSSL := false;
                      MinioConfig.BucketName := "bkt";
                      MinioConfig.Region := "" |}, None).
Proof.
  intros cs Hcs.
  assert (Hin : forall c, In c cs ->
                          c = MinioSetEndpoint "https://x" \/
                          c = MinioSetAccessKey "a" \/
                          c = MinioSetSecretKey "b" \/
                          c = MinioSetBucketName "bkt").
  { intros c Hc. apply Hcs in Hc. cbn in Hc. intuition congruence. }
  assert (Hset : forall (sel : MinioSetterCall -> option string) c v,
             In c minio_example_calls -> sel c = Some v ->
             (forall c' v', In c' minio_example_calls ->
                            sel c' = Some v' -> v' = v) ->
             last_value sel zero cs = v).
  { intros sel c v Hc Hv Hall. apply last_value_agree.
    - exists c. split; [now apply Hcs | exact Hv].
    - intros c' v' Hc'. apply Hall. now apply Hcs. }
  assert (HO : minio_options_of cs =
               {| MinioOption.Endpoint := "https://x";
                  MinioOption.AccessKey := "a";
                  MinioOption.SecretKey := "b";
                  MinioOption.UseSSL := false;
                  MinioOption.BucketName := "bkt";
                  MinioOption.Region := "" |}).
  { unfold minio_options_of. f_equal.
    - apply (Hset _ (MinioSetEndpoint "https://x")); cbn; [tauto|reflexivity|].
      intros c' v' Hc'; cbn in Hc'; intuition (subst; cbn in *; congruence).
    - apply (Hset _ (MinioSetAccessKey "a")); cbn; [tauto|reflexivity|].
      intros c' v' Hc'; cbn in Hc'; intuition (subst; cbn in *; congruence).
    - apply (Hset _ (MinioSetSecretKey "b")); cbn; [tauto|reflexivity|].
      intros c' v' Hc'; cbn in Hc'; intuition (subst; cbn in *; congruence).
    - apply last_value_unset. intros c Hc.
      destruct (Hin c Hc) as [-> | [-> | [-> | ->]]]; reflexivity.
    - apply (Hset _ (MinioSetBucketName "bkt")); cbn; [tauto|reflexivity|].
      intros c' v' Hc'; cbn in Hc'; intuition (subst; cbn in *; congruence).
    - apply last_value_unset. intros c Hc.
      destruct (Hin c Hc) as [-> | [-> | [-> | ->]]]; reflexivity. }
  pose proof (NewMinioConfig_checked [as_lister (minio_builder cs)]
                (minio_options_of cs)) as HC.
  rewrite Build_minio_builder in HC. specialize (HC eq_refl).
  apply (f_equal snd) in HC. cbn [snd] in HC. rewrite HC, HO. reflexivity.
Qed.

Lemma NewMinioConfig_example_witness :
  result (NewMinioConfig minio_example_opts) =
  Returned (Some minio_example_config, None).
Proof.
  apply (NewMinioConfig_example minio_example_calls).
  intros c. split; intros Hc; exact Hc.
Defined.

(** C5.  When the options built have an empty AccessKey, NewMinioConfig fails;
    the error is the access-key-required one as soon as the endpoint is
    non-empty, whatever the secret key and the bucket name are (so in
    particular when every other field is valid). *)
Theorem NewMinioConfig_access_key_required :
  forall opts o,
    result (Build opts) = Returned (Some o, None) ->
    MinioOption.AccessKey o = "" ->
    (exists e, result (NewMinioConfig opts) = Returned (None, Some e)) /\
    (MinioOption.Endpoint o <> "" ->
     result (NewMinioConfig opts) =
     Returned (None, errors_New "minio access key is required")).
Proof.
  intros opts o HB HA.
  pose proof (NewMinioConfig_checked opts o HB) as HC.
  apply (f_equal snd) in HC. cbn [snd] in HC. rewrite HC. clear HC.
  unfold checked. cbn -[String.eqb]. rewrite HA.
  destruct (String.eqb_spec (MinioOption.Endpoint o) "") as [HE|HE]; cbn.
  - split; [eexists; reflexivity | intros Hne; now elim Hne].
  - split; [eexists; reflexivity | reflexivity].
Qed.

Lemma NewMinioConfig_access_key_required_witness :
  (exists e, result (NewMinioConfig minio_no_access_key_opts)
             = Returned (None, Some e)) /\
  result (NewMinioConfig minio_no_access_key_opts) =
  Returned (None, errors_New "minio access key is required").
Proof.
  destruct (NewMinioConfig_access_key_required minio_no_access_key_opts
              {| MinioOption.Endpoint := "https://x";
                 MinioOption.AccessKey := "";
                 MinioOption.SecretKey := "b";
                 MinioOption.UseSSL := false;
                 MinioOption.BucketName := "bkt";
                 MinioOption.Region := "" |} eq_refl eq_refl) as [Hfail Hmsg].
  split; [exact Hfail|]. apply Hmsg. cbn. discriminate.
Defined.

(** C6.  With addr = "localhost:6379" and db = 0 NewRedisConfig succeeds; with
    db = -1 it fails; with addr = "" it fails with the address-required error
    whatever db is.  For options with a non-empty address the constructor
    succeeds exactly when DB >= 0 (so DB = 0 is accepted), and the error for a
    negative DB carries the text "redis database must be greater than 0". *)
Theorem NewRedisConfig_examples :
  result (NewRedisConfig (redis_addr_db "localhost:6379" 0)) =
  Returned (Some {| RedisConfig.Addr := "localhost:6379";
                    RedisConfig.Password := "";
                    RedisConfig.DB := 0 |}, None) /\
  result (NewRedisConfig (redis_addr_db "localhost:6379" (-1))) =
  Returned (None, errors_New "redis database must be greater than 0") /\
  (forall db,
      result (NewRedisConfig (redis_addr_db "" db)) =
      Returned (None, errors_New "redis address is required")) /\
  (forall opts o,
      result (Build opts) = Returned (Some o, None) ->
      RedisConfigOptions.Addr o = "" ->
      result (NewRedisConfig opts) =
      Returned (None, errors_New "redis address is required")) /\
  (forall opts o,
      result (Build opts) = Returned (Some o, None) ->
      RedisConfigOptions.Addr o <> "" ->
      (0 <= RedisConfigOptions.DB o ->
       result (NewRedisConfig opts) =
       Returned (Some {| RedisConfig.Addr := RedisConfigOptions.Addr o;
                         RedisConfig.Password := RedisConfigOptions.Password o;
                         RedisConfig.DB := RedisConfigOptions.DB o |}, None)) /\
      (RedisConfigOptions.DB o < 0 ->
       result (NewRedisConfig opts) =
       Returned (None, errors_New "redis database must be greater than 0"))).
Proof.
  assert (HC : forall opts o,
             result (Build opts) = Returned (Some o, None) ->
             result (NewRedisConfig opts) =
             snd (checked redis_checklist redis_config_of (Some o))).
  { intros opts o HB.
    exact (f_equal snd (NewRedisConfig_checked opts (Some o) HB)). }
  split; [reflexivity|]. split; [reflexivity|]. split; [|split].
  - intros db. rewrite (HC _ (redis_options_of [RedisSetAddr ""; RedisSetDB db])).
    + reflexivity.
    + unfold redis_addr_db.
      change (NewRedisConfigOptionsBuilder
              |> RedisConfigOptionsBuilder.SetAddr ""
              |> RedisConfigOptionsBuilder.SetDB db)
        with (redis_builder [RedisSetAddr ""; RedisSetDB db]).
      now rewrite Build_redis_builder.
  - intros opts o HB HA. rewrite (HC _ _ HB). unfold checked.
    cbn -[String.eqb Z.ltb]. rewrite HA. reflexivity.
  - intros opts o HB HA. rewrite (HC _ _ HB). unfold checked.
    cbn -[String.eqb Z.ltb].
    destruct (String.eqb_spec (RedisConfigOptions.Addr o) "") as [|_];
      [contradiction|].
    cbn -[Z.ltb].
    destruct (Z.ltb_spec (RedisConfigOptions.DB o) 0); cbn;
      split; intros; try lia; reflexivity.
Qed.

Lemma NewRedisConfig_examples_witness :
  (exists cfg, result (NewRedisConfig (redis_addr_db "localhost:6379" 0))
               = Returned (Some cfg, None)) /\
  result (NewRedisConfig (redis_addr_db "localhost:6379" (-1))) =
  Returned (None, errors_New "redis database must be greater than 0") /\
  result (NewRedisConfig [as_lister NewRedisConfigOptionsBuilder]) =
  Returned (None, errors_New "redis address is required").
Proof.
  destruct NewRedisConfig_examples as (_ & _ & _ & Haddr & Hdb).
  split; [|split].
  - eexists.
    refine (proj1 (Hdb (redis_addr_db "localhost:6379" 0)
                       {| RedisConfigOptions.Addr := "localhost:6379";
                          RedisConfigOptions.Password := "";
                          RedisConfigOptions.DB := 0 |} eq_refl _) _).
    + cbn. discriminate.
    + cbn. lia.
  - refine (proj2 (Hdb (redis_addr_db "localhost:6379" (-1))
                       {| RedisConfigOptions.Addr := "localhost:6379";
                          RedisConfigOptions.Password := "";
                          RedisConfigOptions.DB := -1 |} eq_refl _) _).
    + cbn. discriminate.
    + cbn. lia.
  - exact (Haddr [as_lister NewRedisConfigOptionsBuilder] zero eq_refl eq_refl).
Defined.

(** C7.  NewFileBucketConfig fails with the base-path-required error when the
    options built have BasePath = "", and succeeds with Config.BasePath =
    "/data" when they have BasePath = "/data"; so for the builders
    SetBasePath("") and SetBasePath("/data"). *)
Theorem NewFileBucketConfig_examples :
  (forall opts o,
      result (Build opts) = Returned (Some o, None) ->
      FileBucketOption.BasePath o = "" ->
      result (NewFileBucketConfig opts) =
      Returned (None, errors_New "file bucket base path is required")) /\
  (forall opts o,
      result (Build opts) = Returned (Some o, None) ->
      FileBucketOption.BasePath o = "/data" ->
      result (NewFileBucketConfig opts) =
      Returned (Some {| FileBucketConfig.BasePath := "/data" |}, None)) /\
  result (NewFileBucketConfig (file_bucket_base_path "")) =
  Returned (None, errors_New "file bucket base path is required") /\
  result (NewFileBucketConfig (file_bucket_base_path "/data")) =
  Returned (Some {| FileBucketConfig.BasePath := "/data" |}, None).
Proof.
  assert (HC : forall opts o,
             result (Build opts) = Returned (Some o, None) ->
             result (NewFileBucketConfig opts) =
             snd (checked file_bucket_checklist file_bucket_config_of o)).
  { intros opts o HB.
    exact (f_equal snd (NewFileBucketConfig_checked opts o HB)). }
  split; [|split; [|split; reflexivity]].
  - intros opts o HB HP. rewrite (HC _ _ HB). unfold checked.
    cbn -[String.eqb]. rewrite HP. reflexivity.
  - intros opts o HB HP. rewrite (HC _ _ HB).
    unfold checked, file_bucket_config_of.
    cbn -[String.eqb]. rewrite HP. reflexivity.
Qed.

Lemma NewFileBucketConfig_examples_witness :
  result (NewFileBucketConfig [as_lister NewFileBucketOption]) =
  Returned (None, errors_New "file bucket base path is required") /\
  result (NewFileBucketConfig file_bucket_example_opts) =
  Returned (Some {| FileBucketConfig.BasePath := "/data" |}, None).
Proof.
  destruct NewFileBucketConfig_examples as (Hempty & Hdata & _ & _).
  split.
  - exact (Hempty [as_lister NewFileBucketOption] zero eq_refl eq_refl).
  - exact (Hdata file_bucket_example_opts
                 {| FileBucketOption.BasePath := "/data" |} eq_refl eq_refl).
Defined.

(** C8.  Each constructor behaves as its checklist: the rules are evaluated
    in the fixed order (Redis: nil check, address, DB range; Minio: endpoint,
    access key, secret key, bucket name; file bucket: base path) up to and
    including the first violated one, whose error is returned; the rules
    behind it are not evaluated, however many of them are violated too. *)
Theorem first_violated_rule_wins :
  (forall (O : Type) (rules pre post : Checklist O) (o : O) (id : Rule)
          (violated : O -> bool) (msg : string),
      rules = pre ++ (id, violated, msg) :: post ->
      (forall r, In r pre -> snd (fst r) o = false) ->
      violated o = true ->
      first_violated rules o =
      (map (fun r => fst (fst r)) pre ++ [id], Some msg)) /\
  (forall opts p,
      result (Build opts) = Returned (p, None) ->
      trace (NewRedisConfig opts) =
        trace (Build opts)
          ++ map Evaluate (fst (first_violated redis_checklist p)) /\
      result (NewRedisConfig opts) =
        match snd (first_violated redis_checklist p) with
        | Some msg => Returned (None, errors_New msg)
        | None => Returned (redis_config_of p, None)
        end) /\
  (forall opts o,
      result (Build opts) = Returned (Some o, None) ->
      trace (NewMinioConfig opts) =
        trace (Build opts)
          ++ map Evaluate (fst (first_violated minio_checklist o)) /\
      result (NewMinioConfig opts) =
        match snd (first_violated minio_checklist o) with
        | Some msg => Returned (None, errors_New msg)
        | None => Returned (minio_config_of o, None)
        end) /\
  (forall opts o,
      result (Build opts) = Returned (Some o, None) ->
      trace (NewFileBucketConfig opts) =
        trace (Build opts)
          ++ map Evaluate (fst (first_violated file_bucket_checklist o)) /\
      result (NewFileBucketConfig opts) =
        match snd (first_violated file_bucket_checklist o) with
        | Some msg => Returned (None, errors_New msg)
        | None => Returned (file_bucket_config_of o, None)
        end).
Proof.
  split; [|split; [|split]].
  - intros O rules pre post o id violated msg -> Hpre Hv.
    induction pre as [|[[id' v'] msg'] pre IH]; simpl.
    + now rewrite Hv.
    + pose proof (Hpre (id', v', msg') (or_introl eq_refl)) as Hv'.
      simpl in Hv'. rewrite Hv', IH; [reflexivity|].
      intros r Hr. apply Hpre. now right.
  - intros opts p HB. pose proof (NewRedisConfig_checked opts p HB) as HC.
    split; [exact (f_equal fst HC) | exact (f_equal snd HC)].
  - intros opts o HB. pose proof (NewMinioConfig_checked opts o HB) as HC.
    split; [exact (f_equal fst HC) | exact (f_equal snd HC)].
  - intros opts o HB. pose proof (NewFileBucketConfig_checked opts o HB) as HC.
    split; [exact (f_equal fst HC) | exact (f_equal snd HC)].
Qed.

Lemma first_violated_rule_wins_witness :
  (* Minio, access key and bucket name both missing: the access-key rule
     decides and the two rules behind it are not evaluated *)
  (first_violated minio_checklist minio_two_missing =
   ([MinioEndpointRequired; MinioAccessKeyRequired],
    Some "minio access key is required")) /\
  (* Redis, address missing and DB negative *)
  (trace (NewRedisConfig [as_lister (redis_builder [RedisSetDB (-1)])]) =
     [Invoke 0 0; Evaluate RedisOptionsNotNil; Evaluate RedisAddrRequired] /\
   result (NewRedisConfig [as_lister (redis_builder [RedisSetDB (-1)])]) =
     Returned (None, errors_New "redis address is required")) /\
  (* Minio, nothing set: all four rules violated *)
  (trace (NewMinioConfig [as_lister NewMinioOption]) =
     [Evaluate MinioEndpointRequired] /\
   result (NewMinioConfig [as_lister NewMinioOption]) =
     Returned (None, errors_New "minio endpoint is required")) /\
  (* file bucket, nothing set *)
  (trace (NewFileBucketConfig [as_lister NewFileBucketOption]) =
     [Evaluate FileBucketBasePathRequired] /\
   result (NewFileBucketConfig [as_lister NewFileBucketOption]) =
     Returned (None, errors_New "file bucket base path is required")).
Proof.
  destruct first_violated_rule_wins as (HG & HR & HM & HF).
  split; [|split; [|split]].
  - refine (HG _ minio_checklist (firstn 1 minio_checklist)
               (skipn 2 minio_checklist) minio_two_missing
               MinioAccessKeyRequired
               (fun o => String.eqb (MinioOption.AccessKey o) "")
               "minio access key is required" eq_refl _ eq_refl).
    intros r [<-|[]]. reflexivity.
  - exact (HR [as_lister (redis_builder [RedisSetDB (-1)])]
              (Some {| RedisConfigOptions.Addr := "";
                       RedisConfigOptions.Password := "";
                       RedisConfigOptions.DB := -1 |}) eq_refl).
  - exact (HM [as_lister NewMinioOption] zero eq_refl).
  - exact (HF [as_lister NewFileBucketOption] zero eq_refl).
Defined.

(** C9.  Every call of a constructor returns either a Config and no error, or
    no Config and an error, never both and never neither.  The Config carries
    exactly the fields of the options [Build] returned; the error is the one
    [Build] returned or one of the constructor's own messages. *)
Theorem config_or_error :
  (forall opts,
      (exists o,
          result (Build opts) = Returned (Some o, None) /\
          result (NewRedisConfig opts) =
          Returned (Some {| RedisConfig.Addr := RedisConfigOptions.Addr o;
                            RedisConfig.Password := RedisConfigOptions.Password o;
                            RedisConfig.DB := RedisConfigOptions.DB o |}, None)) \/
      (exists e,
          result (NewRedisConfig opts) = Returned (None, Some e) /\
          (result (Build opts) = Returned (None, Some e) \/
           In (Error e) redis_messages))) /\
  (forall opts,
      (exists o,
          result (Build opts) = Returned (Some o, None) /\
          result (NewMinioConfig opts) =
          Returned (Some {| MinioConfig.Endpoint := MinioOption.Endpoint o;
                            MinioConfig.AccessKey := MinioOption.AccessKey o;
                            MinioConfig.SecretKey := MinioOption.SecretKey o;
                            MinioConfig.UseSSL := MinioOption.UseSSL o;
                            MinioConfig.BucketName := MinioOption.BucketName o;
                            MinioConfig.Region := MinioOption.Region o |},
                    None)) \/
      (exists e,
          result (NewMinioConfig opts) = Returned (None, Some e) /\
          (result (Build opts) = Returned (None, Some e) \/
           In (Error e) minio_messages))) /\
  (forall opts,
      (exists o,
          result (Build opts) = Returned (Some o, None) /\
          result (NewFileBucketConfig opts) =
          Returned (Some {| FileBucketConfig.BasePath :=
                              FileBucketOption.BasePath o |}, None)) \/
      (exists e,
          result (NewFileBucketConfig opts) = Returned (None, Some e) /\
          (result (Build opts) = Returned (None, Some e) \/
           In (Error e) file_bucket_messages))).
Proof.
  split; [|split]; intros opts;
    destruct (Build_cases opts) as [[o HB]|[e HB]].
  - rewrite (NewRedisConfig_result opts (Some o) HB).
    unfold checked. cbn -[String.eqb Z.ltb].
    destruct (String.eqb (RedisConfigOptions.Addr o) ""); cbn -[Z.ltb];
      [right; eexists; split; [reflexivity|right; cbn; tauto]|].
    destruct (Z.ltb (RedisConfigOptions.DB o) 0); cbn;
      [right; eexists; split; [reflexivity|right; cbn; tauto]|].
    left. exists o. now split.
  - right. exists e. rewrite (NewRedisConfig_build_error _ _ _ HB).
    split; [reflexivity | now left].
  - rewrite (NewMinioConfig_result opts o HB).
    unfold checked. cbn -[String.eqb].
    destruct (String.eqb (MinioOption.Endpoint o) ""); cbn -[String.eqb];
      [right; eexists; split; [reflexivity|right; cbn; tauto]|].
    destruct (String.eqb (MinioOption.AccessKey o) ""); cbn -[String.eqb];
      [right; eexists; split; [reflexivity|right; cbn; tauto]|].
    destruct (String.eqb (MinioOption.SecretKey o) ""); cbn -[String.eqb];
      [right; eexists; split; [reflexivity|right; cbn; tauto]|].
    destruct (String.eqb (MinioOption.BucketName o) ""); cbn;
      [right; eexists; split; [reflexivity|right; cbn; tauto]|].
    left. exists o. now split.
  - right. exists e. rewrite (NewMinioConfig_build_error _ _ _ HB).
    split; [reflexivity | now left].
  - rewrite (NewFileBucketConfig_result opts o HB).
    unfold checked. cbn -[String.eqb].
    destruct (String.eqb (FileBucketOption.BasePath o) ""); cbn;
      [right; eexists; split; [reflexivity|right; cbn; tauto]|].
    left. exists o. now split.
  - right. exists e. rewrite (NewFileBucketConfig_build_error _ _ _ HB).
    split; [reflexivity | now left].
Qed.

(** C10.  The mutator appended by each of the ten setters reports no error,
    whatever options it is applied to.  So [Build] over builders that were
    filled through the setters only always returns an Options value and no
    error, and a constructor called on such builders either succeeds or
    fails with one of its own validation messages. *)
Theorem setter_mutators_never_fail :
  (forall c b, exists m,
      RedisConfigOptionsBuilder.List (redis_call c b) =
      RedisConfigOptionsBuilder.List b ++ [m] /\ never_fails m) /\
  (forall c b, exists m,
      MinioOptionBuilder.List (minio_call c b) =
      MinioOptionBuilder.List b ++ [m] /\ never_fails m) /\
  (forall c b, exists m,
      FileBucketOptionBuilder.List (file_bucket_call c b) =
      FileBucketOptionBuilder.List b ++ [m] /\ never_fails m) /\
  (forall css : list (list RedisSetterCall),
      let opts := map (fun cs => as_lister (redis_builder cs)) css in
      (exists o, result (Build opts) = Returned (Some o, None)) /\
      ((exists cfg, result (NewRedisConfig opts) = Returned (Some cfg, None)) \/
       (exists msg, In msg redis_messages /\
                    result (NewRedisConfig opts) =
                    Returned (None, errors_New msg)))) /\
  (forall css : list (list MinioSetterCall),
      let opts := map (fun cs => as_lister (minio_builder cs)) css in
      (exists o, result (Build opts) = Returned (Some o, None)) /\
      ((exists cfg, result (NewMinioConfig opts) = Returned (Some cfg, None)) \/
       (exists msg, In msg minio_messages /\
                    result (NewMinioConfig opts) =
                    Returned (None, errors_New msg)))) /\
  (forall css : list (list FileBucketSetterCall),
      let opts := map (fun cs => as_lister (file_bucket_builder cs)) css in
      (exists o, result (Build opts) = Returned (Some o, None)) /\
      ((exists cfg,
           result (NewFileBucketConfig opts) = Returned (Some cfg, None)) \/
       (exists msg, In msg file_bucket_messages /\
                    result (NewFileBucketConfig opts) =
                    Returned (None, errors_New msg)))).
Proof.
  split; [|split; [|split; [|split; [|split]]]].
  - intros [] b; eexists; (split; [reflexivity|]); intros o; reflexivity.
  - intros [] b; eexists; (split; [reflexivity|]); intros o; reflexivity.
  - intros [] b; eexists; (split; [reflexivity|]); intros o; reflexivity.
  - intros css opts.
    assert (HB : result (Build opts) =
                 Returned (Some (redis_options_of (concat css)), None))
      by (unfold opts; now rewrite Build_redis_builders).
    split; [eexists; exact HB|].
    rewrite (NewRedisConfig_result opts _ HB).
    generalize (redis_options_of (concat css)) as o. intros o.
    unfold checked. cbn -[String.eqb Z.ltb].
    destruct (String.eqb (RedisConfigOptions.Addr o) ""); cbn -[Z.ltb];
      [right; eexists; split; [|reflexivity]; cbn; tauto|].
    destruct (Z.ltb (RedisConfigOptions.DB o) 0); cbn;
      [right; eexists; split; [|reflexivity]; cbn; tauto|].
    left. eexists. reflexivity.
  - intros css opts.
    assert (HB : result (Build opts) =
                 Returned (Some (minio_options_of (concat css)), None))
      by (unfold opts; now rewrite Build_minio_builders).
    split; [eexists; exact HB|].
    rewrite (NewMinioConfig_result opts _ HB).
    generalize (minio_options_of (concat css)) as o. intros o.
    unfold checked. cbn -[String.eqb].
    destruct (String.eqb (MinioOption.Endpoint o) ""); cbn -[String.eqb];
      [right; eexists; split; [|reflexivity]; cbn; tauto|].
    destruct (String.eqb (MinioOption.AccessKey o) ""); cbn -[String.eqb];
      [right; eexists; split; [|reflexivity]; cbn; tauto|].
    destruct (String.eqb (MinioOption.SecretKey o) ""); cbn -[String.eqb];
      [right; eexists; split; [|reflexivity]; cbn; tauto|].
    destruct (String.eqb (MinioOption.BucketName o) ""); cbn;
      [right; eexists; split; [|reflexivity]; cbn; tauto|].
    left. eexists. reflexivity.
  - intros css opts.
    assert (HB : result (Build opts) =
                 Returned (Some (file_bucket_options_of (concat css)), None))
      by (unfold opts; now rewrite Build_file_bucket_builders).
    split; [eexists; exact HB|].
    rewrite (NewFileBucketConfig_result opts _ HB).
    generalize (file_bucket_options_of (concat css)) as o. intros o.
    unfold checked. cbn -[String.eqb].
    destruct (String.eqb (FileBucketOption.BasePath o) ""); cbn;
      [right; eexists; split; [|reflexivity]; cbn; tauto|].
    left. eexists. reflexivity.
Qed.


(** * Further properties of the constructors and builders *)

(** The constructors in closed form over builders filled by setter calls:
    what is returned is decided by the last argument given for each field
    over all builders in order, and by the zero value where a field was
    never set. *)

(** NewRedisConfig over setter-filled builders fails with the
    address-required error when no SetAddr call or an empty last address was
    given, else with the database error when the last SetDB argument is
    negative, and otherwise returns the last address, password and database
    index (empty password and index 0 when never set). *)
Theorem NewRedisConfig_of_calls :
  forall css : list (list RedisSetterCall),
    let cs := concat css in
    result (NewRedisConfig (redis_builders css)) =
    if String.eqb (last_value addr_arg "" cs) ""
    then Returned (None, errors_New "redis address is required")
    else if last_value db_arg 0 cs <? 0
         then Returned (None, errors_New "redis database must be greater than 0")
         else Returned
                (Some {| RedisConfig.Addr := last_value addr_arg "" cs;
                         RedisConfig.Password := last_value password_arg "" cs;
                         RedisConfig.DB := last_value db_arg 0 cs |}, None).
Proof.
  intros css cs.
  assert (HB : result (Build (redis_builders css)) =
               Returned (Some (redis_options_of cs), None))
    by (unfold redis_builders, cs; now rewrite Build_redis_builders).
  rewrite (NewRedisConfig_result _ _ HB). unfold checked, redis_options_of.
  cbv [zero Zero_string Zero_int Zero_bool].
  cbn -[String.eqb Z.ltb last_value].
  destruct (String.eqb (last_value addr_arg "" cs) "");
    cbn -[Z.ltb last_value]; [reflexivity|].
  destruct (Z.ltb (last_value db_arg 0 cs) 0); reflexivity.
Qed.

(** NewMinioConfig over setter-filled builders fails with the error of the
    first of endpoint, access key, secret key, bucket name whose last
    argument is empty or missing, and otherwise returns the last argument of
    every field, with UseSSL = false and Region empty when never set. *)
Theorem NewMinioConfig_of_calls :
  forall css : list (list MinioSetterCall),
    let cs := concat css in
    result (NewMinioConfig (minio_builders css)) =
    if String.eqb (last_value endpoint_arg "" cs) ""
    then Returned (None, errors_New "minio endpoint is required")
    else if String.eqb (last_value accessKey_arg "" cs) ""
    then Returned (None, errors_New "minio access key is required")
    else if String.eqb (last_value secretKey_arg "" cs) ""
    then Returned (None, errors_New "minio secret key is required")
    else if String.eqb (last_value bucketName_arg "" cs) ""
    then Returned (None, errors_New "minio bucket name is required")
    else Returned
           (Some {| MinioConfig.Endpoint := last_value endpoint_arg "" cs;
                    MinioConfig.AccessKey := last_value accessKey_arg "" cs;
                    MinioConfig.SecretKey := last_value secretKey_arg "" cs;
                    MinioConfig.UseSSL := last_value useSSL_arg false cs;
                    MinioConfig.BucketName := last_value bucketName_arg "" cs;
                    MinioConfig.Region := last_value region_arg "" cs |}, None).
Proof.
  intros css cs.
  assert (HB : result (Build (minio_builders css)) =
               Returned (Some (minio_options_of cs), None))
    by (unfold minio_builders, cs; now rewrite Build_minio_builders).
  rewrite (NewMinioConfig_result _ _ HB). unfold checked, minio_options_of.
  cbv [zero Zero_string Zero_int Zero_bool].
  cbn -[String.eqb last_value].
  destruct (String.eqb (last_value endpoint_arg "" cs) "");
    cbn -[String.eqb last_value]; [reflexivity|].
  destruct (String.eqb (last_value accessKey_arg "" cs) "");
    cbn -[String.eqb last_value]; [reflexivity|].
  destruct (String.eqb (last_value secretKey_arg "" cs) "");
    cbn -[String.eqb last_value]; [reflexivity|].
  destruct (String.eqb (last_value bucketName_arg "" cs) ""); reflexivity.
Qed.

(** NewFileBucketConfig over setter-filled builders returns the argument of
    the last SetBasePath call when it is non-empty, and fails with the
    base-path-required error when it is empty or no call was made. *)
Theorem NewFileBucketConfig_of_calls :
  forall css : list (list FileBucketSetterCall),
    let cs := concat css in
    result (NewFileBucketConfig (file_bucket_builders css)) =
    if String.eqb (last_value basePath_arg "" cs) ""
    then Returned (None, errors_New "file bucket base path is required")
    else Returned
           (Some {| FileBucketConfig.BasePath :=
                      last_value basePath_arg "" cs |}, None).
Proof.
  intros css cs.
  assert (HB : result (Build (file_bucket_builders css)) =
               Returned (Some (file_bucket_options_of cs), None))
    by (unfold file_bucket_builders, cs; now rewrite Build_file_bucket_builders).
  rewrite (NewFileBucketConfig_result _ _ HB).
  unfold checked, file_bucket_options_of.
  cbv [zero Zero_string Zero_int Zero_bool]. cbn -[String.eqb last_value].
  destruct (String.eqb (last_value basePath_arg "" cs) ""); reflexivity.
Qed.

(** ** Helper facts *)

Lemma result_bind_next {R A : Type} (l : list Event) (a : A)
      (k : A -> body R) :
  result (bind (l, Next a) k) = result (k a).
Proof. unfold result, bind. destruct (k a) as [l' f]. reflexivity. Qed.

Lemma Build_result_flatten {T : Type} `{Zero T} (opts1 opts2 : list (lister T)) :
  flatten opts1 = flatten opts2 ->
  result (Build opts1) = result (Build opts2).
Proof.
  intros Hf. rewrite !Build_run, Hf.
  destruct (run (flatten opts2) zero) as [[n a] [e|]]; reflexivity.
Qed.

Lemma flatten_merged {T : Type} (opts : list (lister T)) :
  flatten (merged opts) = flatten opts.
Proof. unfold merged, flatten at 1. cbn. apply app_nil_r. Qed.

Lemma NewRedisConfig_same_Build opts1 opts2 :
  result (Build opts1) = result (Build opts2) ->
  result (NewRedisConfig opts1) = result (NewRedisConfig opts2).
Proof.
  intros HB. unfold NewRedisConfig, call. rewrite HB.
  destruct (result (Build opts2)) as [r|]; [|reflexivity].
  now rewrite !result_bind_next.
Qed.

Lemma NewMinioConfig_same_Build opts1 opts2 :
  result (Build opts1) = result (Build opts2) ->
  result (NewMinioConfig opts1) = result (NewMinioConfig opts2).
Proof.
  intros HB. unfold NewMinioConfig, call. rewrite HB.
  destruct (result (Build opts2)) as [r|]; [|reflexivity].
  now rewrite !result_bind_next.
Qed.

Lemma NewFileBucketConfig_same_Build opts1 opts2 :
  result (Build opts1) = result (Build opts2) ->
  result (NewFileBucketConfig opts1) = result (NewFileBucketConfig opts2).
Proof.
  intros HB. unfold NewFileBucketConfig, call. rewrite HB.
  destruct (result (Build opts2)) as [r|]; [|reflexivity].
  now rewrite !result_bind_next.
Qed.

Lemma redis_builders_flatten css :
  flatten (redis_builders css) =
  flatten [as_lister (redis_builder (concat css))].
Proof.
  unfold redis_builders. rewrite redis_flatten.
  change [as_lister (redis_builder (concat css))]
    with (map (fun cs => as_lister (redis_builder cs)) [concat css]).
  now rewrite redis_flatten, one_builder.
Qed.

Lemma minio_builders_flatten css :
  flatten (minio_builders css) =
  flatten [as_lister (minio_builder (concat css))].
Proof.
  unfold minio_builders. rewrite minio_flatten.
  change [as_lister (minio_builder (concat css))]
    with (map (fun cs => as_lister (minio_builder cs)) [concat css]).
  now rewrite minio_flatten, one_builder.
Qed.

Lemma file_bucket_builders_flatten css :
  flatten (file_bucket_builders css) =
  flatten [as_lister (file_bucket_builder (concat css))].
Proof.
  unfold file_bucket_builders. rewrite file_bucket_flatten.
  change [as_lister (file_bucket_builder (concat css))]
    with (map (fun cs => as_lister (file_bucket_builder cs)) [concat css]).
  now rewrite file_bucket_flatten, one_builder.
Qed.

(** Several listers passed to a constructor count as one: the value or
    error returned is that for a single lister holding all their mutators
    in order; in particular setter calls split over several builders give
    what the same calls chained on one builder give. *)
Theorem listers_are_concatenated :
  (forall opts, result (NewRedisConfig (merged opts)) =
                result (NewRedisConfig opts)) /\
  (forall opts, result (NewMinioConfig (merged opts)) =
                result (NewMinioConfig opts)) /\
  (forall opts, result (NewFileBucketConfig (merged opts)) =
                result (NewFileBucketConfig opts)) /\
  (forall css, result (NewRedisConfig (redis_builders css)) =
               result (NewRedisConfig [as_lister (redis_builder (concat css))])) /\
  (forall css, result (NewMinioConfig (minio_builders css)) =
               result (NewMinioConfig [as_lister (minio_builder (concat css))])) /\
  (forall css,
      result (NewFileBucketConfig (file_bucket_builders css)) =
      result (NewFileBucketConfig
                [as_lister (file_bucket_builder (concat css))])).
Proof.
  split; [|split; [|split; [|split; [|split]]]].
  - intros opts. apply NewRedisConfig_same_Build, Build_result_flatten,
      flatten_merged.
  - intros opts. apply NewMinioConfig_same_Build, Build_result_flatten,
      flatten_merged.
  - intros opts. apply NewFileBucketConfig_same_Build, Build_result_flatten,
      flatten_merged.
  - intros css. apply NewRedisConfig_same_Build, Build_result_flatten,
      redis_builders_flatten.
  - intros css. apply NewMinioConfig_same_Build, Build_result_flatten,
      minio_builders_flatten.
  - intros css. apply NewFileBucketConfig_same_Build, Build_result_flatten,
      file_bucket_builders_flatten.
Qed.

Lemma last_value_swap {C V : Type} (sel : C -> option V) (d : V)
      (pre post : list C) (c1 c2 : C) :
  sel c1 = None \/ sel c2 = None ->
  last_value sel d (pre ++ c1 :: c2 :: post) =
  last_value sel d (pre ++ c2 :: c1 :: post).
Proof.
  intros Hsel. rewrite !last_value_app. unfold last_value. simpl.
  destruct Hsel as [Hn|Hn]; rewrite Hn; simpl; reflexivity.
Qed.

Lemma last_value_override {C V : Type} (sel : C -> option V) (d : V)
      (pre post : list C) (c1 c2 : C) :
  (sel c2 = None -> sel c1 = None) ->
  last_value sel d (pre ++ c1 :: c2 :: post) =
  last_value sel d (pre ++ c2 :: post).
Proof.
  intros Hsel. rewrite !last_value_app. unfold last_value. simpl.
  destruct (sel c2) as [v|]; simpl; [reflexivity|].
  now rewrite Hsel.
Qed.

Lemma NewRedisConfig_builder_result cs :
  result (NewRedisConfig [as_lister (redis_builder cs)]) =
  snd (checked redis_checklist redis_config_of (Some (redis_options_of cs))).
Proof.
  apply NewRedisConfig_result. now rewrite Build_redis_builder.
Qed.

Lemma NewMinioConfig_builder_result cs :
  result (NewMinioConfig [as_lister (minio_builder cs)]) =
  snd (checked minio_checklist minio_config_of (minio_options_of cs)).
Proof.
  apply NewMinioConfig_result. now rewrite Build_minio_builder.
Qed.

(** Redis setter calls on different fields may be swapped, and a call that
    is directly followed by a call on the same field may be dropped: the
    constructor returns the same value or error. *)
Theorem redis_setters_commute :
  (forall pre c1 c2 post,
      redis_field c1 <> redis_field c2 ->
      result (NewRedisConfig [as_lister (redis_builder (pre ++ c1 :: c2 :: post))])
      = result (NewRedisConfig
                  [as_lister (redis_builder (pre ++ c2 :: c1 :: post))])) /\
  (forall pre c1 c2 post,
      redis_field c1 = redis_field c2 ->
      result (NewRedisConfig [as_lister (redis_builder (pre ++ c1 :: c2 :: post))])
      = result (NewRedisConfig [as_lister (redis_builder (pre ++ c2 :: post))])).
Proof.
  split; intros pre c1 c2 post Hf; rewrite !NewRedisConfig_builder_result;
    do 3 f_equal; unfold redis_options_of; f_equal.
  1-3: apply last_value_swap; destruct c1, c2; cbn in *; auto; congruence.
  all: apply last_value_override; destruct c1, c2; cbn in *; auto;
    discriminate.
Qed.

Lemma redis_setters_commute_witness :
  result (NewRedisConfig
            [as_lister (redis_builder
                          [RedisSetDB 2; RedisSetAddr "localhost:6379";
                           RedisSetPassword "p"])])
  = result (NewRedisConfig
              [as_lister (redis_builder
                            [RedisSetAddr "localhost:6379"; RedisSetDB 2;
                             RedisSetPassword "p"])]) /\
  result (NewRedisConfig
            [as_lister (redis_builder
                          [RedisSetAddr ""; RedisSetAddr "localhost:6379"])])
  = result (NewRedisConfig
              [as_lister (redis_builder [RedisSetAddr "localhost:6379"])]).
Proof.
  destruct redis_setters_commute as [Hswap Hdrop]. split.
  - apply (Hswap [] (RedisSetDB 2) (RedisSetAddr "localhost:6379")
                 [RedisSetPassword "p"]).
    cbn. discriminate.
  - apply (Hdrop [] (RedisSetAddr "") (RedisSetAddr "localhost:6379") []).
    reflexivity.
Defined.

(** Minio setter calls on different fields may be swapped, and a call that
    is directly followed by a call on the same field may be dropped: the
    constructor returns the same value or error. *)
Theorem minio_setters_commute :
  (forall pre c1 c2 post,
      minio_field c1 <> minio_field c2 ->
      result (NewMinioConfig [as_lister (minio_builder (pre ++ c1 :: c2 :: post))])
      = result (NewMinioConfig
                  [as_lister (minio_builder (pre ++ c2 :: c1 :: post))])) /\
  (forall pre c1 c2 post,
      minio_field c1 = minio_field c2 ->
      result (NewMinioConfig [as_lister (minio_builder (pre ++ c1 :: c2 :: post))])
      = result (NewMinioConfig [as_lister (minio_builder (pre ++ c2 :: post))])).
Proof.
  split; intros pre c1 c2 post Hf; rewrite !NewMinioConfig_builder_result;
    do 2 f_equal; unfold minio_options_of; f_equal.
  1-6: apply last_value_swap; destruct c1, c2; cbn in *; auto; congruence.
  all: apply last_value_override; destruct c1, c2; cbn in *; auto;
    discriminate.
Qed.

Lemma minio_setters_commute_witness :
  result (NewMinioConfig
            [as_lister (minio_builder
                          [MinioSetUseSSL true; MinioSetEndpoint "https://x"])])
  = result (NewMinioConfig
              [as_lister (minio_builder
                            [MinioSetEndpoint "https://x"; MinioSetUseSSL true])])
  /\
  result (NewMinioConfig
            [as_lister (minio_builder
                          [MinioSetRegion "eu"; MinioSetRegion "us";
                           MinioSetEndpoint "https://x"])])
  = result (NewMinioConfig
              [as_lister (minio_builder
                            [MinioSetRegion "us"; MinioSetEndpoint "https://x"])]).
Proof.
  destruct minio_setters_commute as [Hswap Hdrop]. split.
  - apply (Hswap [] (MinioSetUseSSL true) (MinioSetEndpoint "https://x") []).
    cbn. discriminate.
  - apply (Hdrop [] (MinioSetRegion "eu") (MinioSetRegion "us")
                 [MinioSetEndpoint "https://x"]).
    reflexivity.
Defined.

Ltac decide_rules :=
  repeat match goal with
         | |- context [String.eqb ?s ""] =>
             destruct (String.eqb_spec s ""); cbn -[String.eqb Z.ltb]
         | |- context [Z.ltb ?z 0] =>
             destruct (Z.ltb_spec z 0); cbn -[String.eqb Z.ltb]
         end.

(** Fields without a rule never influence a failure: two inputs whose
    built options agree on the validated fields (Redis: Addr and DB; Minio:
    Endpoint, AccessKey, SecretKey, BucketName) fail with the same errors,
    whatever Password, UseSSL and Region are. *)
Theorem unvalidated_fields_do_not_matter :
  (forall opts1 opts2 o1 o2,
      result (Build opts1) = Returned (Some o1, None) ->
      result (Build opts2) = Returned (Some o2, None) ->
      RedisConfigOptions.Addr o1 = RedisConfigOptions.Addr o2 ->
      RedisConfigOptions.DB o1 = RedisConfigOptions.DB o2 ->
      forall e,
        result (NewRedisConfig opts1) = Returned (None, e) <->
        result (NewRedisConfig opts2) = Returned (None, e)) /\
  (forall opts1 opts2 o1 o2,
      result (Build opts1) = Returned (Some o1, None) ->
      result (Build opts2) = Returned (Some o2, None) ->
      MinioOption.Endpoint o1 = MinioOption.Endpoint o2 ->
      MinioOption.AccessKey o1 = MinioOption.AccessKey o2 ->
      MinioOption.SecretKey o1 = MinioOption.SecretKey o2 ->
      MinioOption.BucketName o1 = MinioOption.BucketName o2 ->
      forall e,
        result (NewMinioConfig opts1) = Returned (None, e) <->
        result (NewMinioConfig opts2) = Returned (None, e)).
Proof.
  split.
  - intros opts1 opts2 o1 o2 H1 H2 HA HD e.
    rewrite (NewRedisConfig_result _ _ H1), (NewRedisConfig_result _ _ H2).
    unfold checked. cbn -[String.eqb Z.ltb]. rewrite HA, HD.
    decide_rules; split; intros Heq; try exact Heq; discriminate Heq.
  - intros opts1 opts2 o1 o2 H1 H2 HE HA HS HN e.
    rewrite (NewMinioConfig_result _ _ H1), (NewMinioConfig_result _ _ H2).
    unfold checked. cbn -[String.eqb]. rewrite HE, HA, HS, HN.
    decide_rules; split; intros Heq; try exact Heq; discriminate Heq.
Qed.

Lemma unvalidated_fields_do_not_matter_witness :
  (result (NewRedisConfig
             [as_lister (redis_builder [RedisSetDB (-1); RedisSetAddr "a"])])
   = Returned (None, errors_New "redis database must be greater than 0") <->
   result (NewRedisConfig
             [as_lister (redis_builder
                           [RedisSetDB (-1); RedisSetAddr "a";
                            RedisSetPassword "secret"])])
   = Returned (None, errors_New "redis database must be greater than 0")) /\
  (result (NewMinioConfig
             [as_lister (minio_builder [MinioSetEndpoint "https://x"])])
   = Returned (None, errors_New "minio access key is required") <->
   result (NewMinioConfig
             [as_lister (minio_builder
                           [MinioSetEndpoint "https://x"; MinioSetUseSSL true;
                            MinioSetRegion "eu"])])
   = Returned (None, errors_New "minio access key is required")).
Proof.
  destruct unvalidated_fields_do_not_matter as [HR HM]. split.
  - exact (HR [as_lister (redis_builder [RedisSetDB (-1); RedisSetAddr "a"])]
              [as_lister (redis_builder
                            [RedisSetDB (-1); RedisSetAddr "a";
                             RedisSetPassword "secret"])]
              _ _ eq_refl eq_refl eq_refl eq_refl
              (errors_New "redis database must be greater than 0")).
  - exact (HM [as_lister (minio_builder [MinioSetEndpoint "https://x"])]
              [as_lister (minio_builder
                            [MinioSetEndpoint "https://x"; MinioSetUseSSL true;
                             MinioSetRegion "eu"])]
              _ _ eq_refl eq_refl eq_refl eq_refl eq_refl eq_refl
              (errors_New "minio access key is required")).
Defined.

(** NewMinioConfig never rejects valid options: when the options built have
    non-empty Endpoint, AccessKey, SecretKey and BucketName, it returns a
    Config with all six fields copied, UseSSL and Region included whatever
    they are. *)
Theorem NewMinioConfig_accepts_valid :
  forall opts o,
    result (Build opts) = Returned (Some o, None) ->
    MinioOption.Endpoint o <> "" ->
    MinioOption.AccessKey o <> "" ->
    MinioOption.SecretKey o <> "" ->
    MinioOption.BucketName o <> "" ->
    result (NewMinioConfig opts) =
    Returned (Some {| MinioConfig.Endpoint := MinioOption.Endpoint o;
                      MinioConfig.AccessKey := MinioOption.AccessKey o;
                      MinioConfig.SecretKey := MinioOption.SecretKey o;
                      MinioConfig.UseSSL := MinioOption.UseSSL o;
                      MinioConfig.BucketName := MinioOption.BucketName o;
                      MinioConfig.Region := MinioOption.Region o |}, None).
Proof.
  intros opts o HB HE HA HS HN. rewrite (NewMinioConfig_result _ _ HB).
  unfold checked, minio_config_of. cbn -[String.eqb].
  decide_rules; try contradiction. reflexivity.
Qed.

Lemma NewMinioConfig_accepts_valid_witness :
  result (NewMinioConfig
            [as_lister (minio_builder
                          [MinioSetRegion "eu"; MinioSetEndpoint "https://x";
                           MinioSetAccessKey "a"; MinioSetSecretKey "b";
                           MinioSetUseSSL true; MinioSetBucketName "bkt"])]) =
  Returned (Some {| MinioConfig.Endpoint := "https://x";
                    MinioConfig.AccessKey := "a";
                    MinioConfig.SecretKey := "b";
                    MinioConfig.UseSSL := true;
                    MinioConfig.BucketName := "bkt";
                    MinioConfig.Region := "eu" |}, None).
Proof.
  refine (NewMinioConfig_accepts_valid
            [as_lister (minio_builder
                          [MinioSetRegion "eu"; MinioSetEndpoint "https://x";
                           MinioSetAccessKey "a"; MinioSetSecretKey "b";
                           MinioSetUseSSL true; MinioSetBucketName "bkt"])]
            {| MinioOption.Endpoint := "https://x";
               MinioOption.AccessKey := "a";
               MinioOption.SecretKey := "b";
               MinioOption.UseSSL := true;
               MinioOption.BucketName := "bkt";
               MinioOption.Region := "eu" |} _ _ _ _ _);
    [reflexivity | cbn; discriminate ..].
Defined.

(** The validation errors of NewMinioConfig are truthful: once Build has
    returned options, each error names a field that is indeed empty, and
    every field checked before it is non-empty. *)
Theorem NewMinioConfig_errors_are_truthful :
  forall opts o,
    result (Build opts) = Returned (Some o, None) ->
    (result (NewMinioConfig opts) =
     Returned (None, errors_New "minio endpoint is required") ->
     MinioOption.Endpoint o = "") /\
    (result (NewMinioConfig opts) =
     Returned (None, errors_New "minio access key is required") ->
     MinioOption.Endpoint o <> "" /\ MinioOption.AccessKey o = "") /\
    (result (NewMinioConfig opts) =
     Returned (None, errors_New "minio secret key is required") ->
     MinioOption.Endpoint o <> "" /\ MinioOption.AccessKey o <> "" /\
     MinioOption.SecretKey o = "") /\
    (result (NewMinioConfig opts) =
     Returned (None, errors_New "minio bucket name is required") ->
     MinioOption.Endpoint o <> "" /\ MinioOption.AccessKey o <> "" /\
     MinioOption.SecretKey o <> "" /\ MinioOption.BucketName o = "").
Proof.
  intros opts o HB. rewrite (NewMinioConfig_result _ _ HB).
  unfold checked. cbn -[String.eqb].
  decide_rules; (split; [|split; [|split]]); intros Heq;
    try discriminate Heq; repeat apply conj; assumption.
Qed.

Lemma NewMinioConfig_errors_are_truthful_witness :
  result (NewMinioConfig
            [as_lister (minio_builder
                          [MinioSetEndpoint "https://x"; MinioSetAccessKey "a";
                           MinioSetBucketName "bkt"])]) =
  Returned (None, errors_New "minio secret key is required") /\
  ("https://x" <> "" /\ "a" <> "" /\ "" = "").
Proof.
  split; [reflexivity|].
  refine (proj1 (proj2 (proj2
            (NewMinioConfig_errors_are_truthful
               [as_lister (minio_builder
                             [MinioSetEndpoint "https://x";
                              MinioSetAccessKey "a";
                              MinioSetBucketName "bkt"])]
               {| MinioOption.Endpoint := "https://x";
                  MinioOption.AccessKey := "a";
                  MinioOption.SecretKey := "";
                  MinioOption.UseSSL := false;
                  MinioOption.BucketName := "bkt";
                  MinioOption.Region := "" |} eq_refl))) eq_refl).
Defined.

(** The validation errors of NewRedisConfig are truthful: once Build has
    returned options, the address error means the address is empty, the
    database error means the address is non-empty and DB is negative, and
    the nil-options error is never returned. *)
Theorem NewRedisConfig_errors_are_truthful :
  forall opts o,
    result (Build opts) = Returned (Some o, None) ->
    (result (NewRedisConfig opts) =
     Returned (None, errors_New "redis address is required") ->
     RedisConfigOptions.Addr o = "") /\
    (result (NewRedisConfig opts) =
     Returned (None, errors_New "redis database must be greater than 0") ->
     RedisConfigOptions.Addr o <> "" /\ RedisConfigOptions.DB o < 0) /\
    result (NewRedisConfig opts) <>
    Returned (None, errors_New "redis config options is nil").
Proof.
  intros opts o HB. rewrite (NewRedisConfig_result _ _ HB).
  unfold checked. cbn -[String.eqb Z.ltb].
  decide_rules; (split; [|split]); intros Heq;
    try discriminate Heq; repeat apply conj; assumption.
Qed.

Lemma NewRedisConfig_errors_are_truthful_witness :
  result (NewRedisConfig
            [as_lister (redis_builder [RedisSetAddr "a"; RedisSetDB (-3)])]) =
  Returned (None, errors_New "redis database must be greater than 0") /\
  ("a" <> "" /\ -3 < 0).
Proof.
  split; [reflexivity|].
  refine (proj1 (proj2
            (NewRedisConfig_errors_are_truthful
               [as_lister (redis_builder [RedisSetAddr "a"; RedisSetDB (-3)])]
               {| RedisConfigOptions.Addr := "a";
                  RedisConfigOptions.Password := "";
                  RedisConfigOptions.DB := -3 |} eq_refl)) eq_refl).
Defined.

(** NewFileBucketConfig accepts every non-empty base path and returns it
    unchanged; its error means the base path built is empty. *)
Theorem NewFileBucketConfig_accepts_nonempty :
  forall opts o,
    result (Build opts) = Returned (Some o, None) ->
    (FileBucketOption.BasePath o <> "" ->
     result (NewFileBucketConfig opts) =
     Returned (Some {| FileBucketConfig.BasePath :=
                         FileBucketOption.BasePath o |}, None)) /\
    (result (NewFileBucketConfig opts) =
     Returned (None, errors_New "file bucket base path is required") ->
     FileBucketOption.BasePath o = "").
Proof.
  intros opts o HB. rewrite (NewFileBucketConfig_result _ _ HB).
  unfold checked, file_bucket_config_of. cbn -[String.eqb].
  decide_rules; split; intros Heq;
    try discriminate Heq; try contradiction; try assumption; reflexivity.
Qed.

Lemma NewFileBucketConfig_accepts_nonempty_witness :
  result (NewFileBucketConfig
            [as_lister (file_bucket_builder
                          [FileBucketSetBasePath " relative/dir/ "])]) =
  Returned (Some {| FileBucketConfig.BasePath := " relative/dir/ " |}, None).
Proof.
  refine (proj1
            (NewFileBucketConfig_accepts_nonempty
               [as_lister (file_bucket_builder
                             [FileBucketSetBasePath " relative/dir/ "])]
               {| FileBucketOption.BasePath := " relative/dir/ " |} eq_refl) _).
  cbn. discriminate.
Defined.

Lemma redis_chain_Opts cs b :
  RedisConfigOptionsBuilder.Opts (redis_chain cs b) =
  RedisConfigOptionsBuilder.Opts b ++ flat_map redis_appended cs.
Proof.
  revert b. induction cs as [|c cs IH]; intros b; simpl;
    [now rewrite app_nil_r|].
  unfold redis_chain in *. simpl.
  rewrite IH, redis_call_appends, <- app_assoc. reflexivity.
Qed.

Lemma minio_chain_Opts cs b :
  MinioOptionBuilder.Opts (minio_chain cs b) =
  MinioOptionBuilder.Opts b ++ flat_map minio_appended cs.
Proof.
  revert b. induction cs as [|c cs IH]; intros b; simpl;
    [now rewrite app_nil_r|].
  unfold minio_chain in *. simpl.
  rewrite IH, minio_call_appends, <- app_assoc. reflexivity.
Qed.

Lemma file_bucket_chain_Opts cs b :
  FileBucketOptionBuilder.Opts (file_bucket_chain cs b) =
  FileBucketOptionBuilder.Opts b ++ flat_map file_bucket_appended cs.
Proof.
  revert b. induction cs as [|c cs IH]; intros b; simpl;
    [now rewrite app_nil_r|].
  unfold file_bucket_chain in *. simpl.
  rewrite IH, file_bucket_call_appends, <- app_assoc. reflexivity.
Qed.

(** Setter calls only ever append: after any chain of calls on a builder
    that already holds mutators, List() returns the earlier mutators first
    and unchanged, followed by exactly one never-failing mutator per call. *)
Theorem setters_only_append :
  (forall cs b, exists ms,
      RedisConfigOptionsBuilder.List (redis_chain cs b) =
      RedisConfigOptionsBuilder.List b ++ ms /\
      length ms = length cs /\ Forall never_fails ms) /\
  (forall cs b, exists ms,
      MinioOptionBuilder.List (minio_chain cs b) =
      MinioOptionBuilder.List b ++ ms /\
      length ms = length cs /\ Forall never_fails ms) /\
  (forall cs b, exists ms,
      FileBucketOptionBuilder.List (file_bucket_chain cs b) =
      FileBucketOptionBuilder.List b ++ ms /\
      length ms = length cs /\ Forall never_fails ms).
Proof.
  split; [|split]; intros cs b.
  - exists (flat_map redis_appended cs). split; [apply redis_chain_Opts|].
    split; [|apply Forall_flat_map, redis_appended_never_fails].
    rewrite flat_map_constant_length with (c := 1%nat); [lia | now intros []].
  - exists (flat_map minio_appended cs). split; [apply minio_chain_Opts|].
    split; [|apply Forall_flat_map, minio_appended_never_fails].
    rewrite flat_map_constant_length with (c := 1%nat); [lia | now intros []].
  - exists (flat_map file_bucket_appended cs).
    split; [apply file_bucket_chain_Opts|].
    split; [|apply Forall_flat_map, file_bucket_appended_never_fails].
    rewrite flat_map_constant_length with (c := 1%nat); [lia | now intros []].
Qed.
